(** * Verification of the RAG service core (rag_service.py)

    A shallow embedding of the crawler ([discover_urls]), the homepage
    classifier ([is_homepage_url]), the indexing driver ([index_website])
    and the query path ([query]) of [RAGService], together with the part of
    Python's [urllib.parse] and [re] that these functions rely on.

    A Python [str] is modelled by the sequence of its characters, each of
    which is taken to be a code point below 256 (URLs are ASCII on the
    wire).  The network, the HTML parser, the page
    reader, the vector store and the query engine are the environment: they
    appear as parameters that may answer anything, including an exception. *)

From Stdlib Require Import String Ascii ZArith QArith Lia Bool DecimalString Sorted.
From stdpp Require Import gmap strings list.

Local Open Scope string_scope.

(** ** Python string primitives *)

Module PyStr.

Definition code (c : ascii) : nat := nat_of_ascii c.

Definition is_upper (c : ascii) : bool :=
  (65 <=? code c)%nat && (code c <=? 90)%nat.

Definition is_lower (c : ascii) : bool :=
  (97 <=? code c)%nat && (code c <=? 122)%nat.

Definition is_digit (c : ascii) : bool :=
  (48 <=? code c)%nat && (code c <=? 57)%nat.

(** [c.isascii() and c.isalpha()] *)
Definition is_ascii_alpha (c : ascii) : bool := is_upper c || is_lower c.

(** The characters below 256 that [str.lower] changes: A-Z and the
    Latin-1 capitals (192-214, 216-222); each moves up by 32. *)
Definition is_cased_upper (c : ascii) : bool :=
  is_upper c
  || ((192 <=? code c)%nat && (code c <=? 214)%nat)
  || ((216 <=? code c)%nat && (code c <=? 222)%nat).

Definition lower_char (c : ascii) : ascii :=
  if is_cased_upper c then ascii_of_nat (code c + 32) else c.

(** The characters below 256 that the pattern [\s] matches *)
Definition is_space (c : ascii) : bool :=
  ((9 <=? code c)%nat && (code c <=? 13)%nat)
  || ((28 <=? code c)%nat && (code c <=? 32)%nat)
  || (code c =? 133)%nat || (code c =? 160)%nat.

(** [s.lower()] *)
Fixpoint lower (s : string) : string :=
  match s with
  | EmptyString => EmptyString
  | String c s' => String (lower_char c) (lower s')
  end.

(** [s.lstrip(chars)], the set of characters given as a predicate *)
Fixpoint lstrip (p : ascii -> bool) (s : string) : string :=
  match s with
  | EmptyString => EmptyString
  | String c s' => if p c then lstrip p s' else s
  end.

(** [s.rstrip(chars)] *)
Fixpoint rstrip (p : ascii -> bool) (s : string) : string :=
  match s with
  | EmptyString => EmptyString
  | String c s' =>
      match rstrip p s' with
      | EmptyString => if p c then EmptyString else String c EmptyString
      | r => String c r
      end
  end.

(** [s.strip(chars)] *)
Definition strip (p : ascii -> bool) (s : string) : string :=
  rstrip p (lstrip p s).

(** [s.replace(c, "")] for every character [c] selected by [p] *)
Fixpoint remove (p : ascii -> bool) (s : string) : string :=
  match s with
  | EmptyString => EmptyString
  | String c s' => if p c then remove p s' else String c (remove p s')
  end.

(** [all(p(c) for c in s)] *)
Fixpoint all (p : ascii -> bool) (s : string) : bool :=
  match s with
  | EmptyString => true
  | String c s' => p c && all p s'
  end.

(** [any(p(c) for c in s)]; [c in s] is [any (Ascii.eqb c) s] *)
Fixpoint any (p : ascii -> bool) (s : string) : bool :=
  match s with
  | EmptyString => false
  | String c s' => p c || any p s'
  end.

(** The text before the first character selected by [p], and the text
    from that character on: [(s[:i], s[i:])] for [i] the least index with
    [p s[i]], and [(s, "")] when there is none. *)
Fixpoint break (p : ascii -> bool) (s : string) : string * string :=
  match s with
  | EmptyString => (EmptyString, EmptyString)
  | String c s' =>
      if p c then (EmptyString, s)
      else let '(a, b) := break p s' in (String c a, b)
  end.

(** [s[1:]] *)
Definition tail (s : string) : string :=
  match s with
  | EmptyString => EmptyString
  | String _ s' => s'
  end.

(** [(s[:i+1], s[i+1:])] for [i = s.rfind(c)], and [("", s)] when [c]
    does not occur in [s]. *)
Fixpoint rbreak (c : ascii) (s : string) : string * string :=
  match s with
  | EmptyString => (EmptyString, EmptyString)
  | String d s' =>
      let '(a, b) := rbreak c s' in
      if Ascii.eqb d c then (String d a, b)
      else match a with
           | EmptyString => (EmptyString, String d b)
           | _ => (String d a, b)
           end
  end.

(** [s.startswith(pre)], returning the rest of [s] *)
Fixpoint strip_prefix (pre s : string) : option string :=
  match pre, s with
  | EmptyString, _ => Some s
  | String a pre', String b s' =>
      if Ascii.eqb a b then strip_prefix pre' s' else None
  | String _ _, EmptyString => None
  end.

(** [s.split(c)] *)
Fixpoint split (c : ascii) (s : string) : list string :=
  match s with
  | EmptyString => [EmptyString]
  | String d s' =>
      if Ascii.eqb d c then EmptyString :: split c s'
      else match split c s' with
           | h :: t => String d h :: t
           | [] => [String d EmptyString]
           end
  end.

(** [sep.join(l)] *)
Fixpoint join (sep : string) (l : list string) : string :=
  match l with
  | [] => EmptyString
  | [x] => x
  | x :: l' => x ++ sep ++ join sep l'
  end.

(** [bool(s)] *)
Definition nonempty (s : string) : bool :=
  match s with EmptyString => false | _ => true end.

(** [x in l] for a list of strings *)
Definition mem (x : string) (l : list string) : bool :=
  existsb (String.eqb x) l.

End PyStr.

(** ** urllib.parse

    [urlsplit] and [urlparse] as in CPython's [urllib/parse.py].  The two
    checks of [urlsplit] that need tables the model does not have are left
    out: the NFKC check of a non-ASCII netloc, and the validation of the
    text between brackets as an IP literal.  The bracket balance check,
    which raises [ValueError], is modelled: the functions return [None]
    where Python raises. *)

Module UrlParse.
Import PyStr.

Record ParseResult := mkParse {
  scheme : string;
  netloc : string;
  path : string;
  params : string;
  query : string;
  fragment : string
}.

Definition uses_params : list string :=
  [""; "ftp"; "hdl"; "prospero"; "http"; "imap"; "https"; "shttp";
   "rtsp"; "rtspu"; "sip"; "sips"; "mms"; "sftp"; "tel"].

Definition uses_relative : list string :=
  [""; "ftp"; "http"; "gopher"; "nntp"; "imap"; "wais"; "file"; "https";
   "shttp"; "mms"; "prospero"; "rtsp"; "rtspu"; "sftp"; "svn"; "svn+ssh";
   "ws"; "wss"].

Definition uses_netloc : list string :=
  [""; "ftp"; "http"; "gopher"; "nntp"; "telnet"; "imap"; "wais"; "file";
   "mms"; "https"; "shttp"; "snews"; "prospero"; "rtsp"; "rtspu"; "rsync";
   "svn"; "svn+ssh"; "sftp"; "nfs"; "git"; "git+ssh"; "ws"; "wss"].

(** [c in scheme_chars] *)
Definition scheme_char (c : ascii) : bool :=
  is_ascii_alpha c || is_digit c
  || Ascii.eqb c "+" || Ascii.eqb c "-" || Ascii.eqb c ".".

(** [c in _WHATWG_C0_CONTROL_OR_SPACE] *)
Definition c0_or_space (c : ascii) : bool := (code c <=? 32)%nat.

(** [c in _UNSAFE_URL_BYTES_TO_REMOVE] *)
Definition unsafe_byte (c : ascii) : bool :=
  Ascii.eqb c "009" || Ascii.eqb c "013" || Ascii.eqb c "010".

Definition netloc_delim (c : ascii) : bool :=
  Ascii.eqb c "/" || Ascii.eqb c "?" || Ascii.eqb c "#".

(** The scheme split of [urlsplit]: [i = url.find(':')], and the scheme
    is cut off when [i > 0], [url[0]] is an ASCII letter and [url[:i]]
    has scheme characters only. *)
Definition split_scheme (dflt url : string) : string * string :=
  match break (Ascii.eqb ":") url with
  | (String c0 pre, String _ rest) =>
      if is_ascii_alpha c0 && all scheme_char (String c0 pre)
      then (lower (String c0 pre), rest)
      else (dflt, url)
  | _ => (dflt, url)
  end.

(** [_splitnetloc(url, 2)] when [url[:2] == '//'] *)
Definition split_netloc (url : string) : string * string :=
  match strip_prefix "//" url with
  | Some r => break netloc_delim r
  | None => (EmptyString, url)
  end.

Definition brackets_ok (nl : string) : bool :=
  Bool.eqb (any (Ascii.eqb "[") nl) (any (Ascii.eqb "]") nl).

(** [urlsplit(url, scheme)]: the components
    [(scheme, netloc, path, query, fragment)] *)
Definition urlsplit (url dflt : string)
  : option (string * string * string * string * string) :=
  let url := remove unsafe_byte (lstrip c0_or_space url) in
  let dflt := remove unsafe_byte (strip c0_or_space dflt) in
  let '(sch, url) := split_scheme dflt url in
  let '(nl, url) := split_netloc url in
  if brackets_ok nl then
    let '(url, frag) := break (Ascii.eqb "#") url in
    let '(url, qry) := break (Ascii.eqb "?") url in
    Some (sch, nl, url, tail qry, tail frag)
  else None.

(** [_splitparams(url)], called when [';' in url] *)
Definition splitparams (url : string) : string * string :=
  let '(dir, file) := rbreak "/" url in
  match break (Ascii.eqb ";") file with
  | (_, EmptyString) => (url, EmptyString)
  | (f, String _ ps) => (dir ++ f, ps)
  end.

Definition urlparse_with (url dflt : string) : option ParseResult :=
  match urlsplit url dflt with
  | None => None
  | Some (sch, nl, url, qry, frag) =>
      if mem sch uses_params && any (Ascii.eqb ";") url
      then let '(url, ps) := splitparams url in
           Some (mkParse sch nl url ps qry frag)
      else Some (mkParse sch nl url EmptyString qry frag)
  end.

(** [urlparse(url)] *)
Definition urlparse (url : string) : option ParseResult :=
  urlparse_with url EmptyString.

End UrlParse.

(** ** urljoin *)

Module UrlJoin.
Import PyStr UrlParse.

(** [urlunsplit] after the parameter step of [urlunparse] *)
Definition urlunparse (p : ParseResult) : string :=
  let url := if nonempty (params p) then path p ++ ";" ++ params p
             else path p in
  let url :=
    if nonempty (netloc p)
       || (nonempty (scheme p) && mem (scheme p) uses_netloc
           && negb (String.prefix "//" url))
    then "//" ++ netloc p
         ++ (if nonempty url && negb (String.prefix "/" url)
             then "/" ++ url else url)
    else url in
  let url := if nonempty (scheme p) then scheme p ++ ":" ++ url else url in
  let url := if nonempty (query p) then url ++ "?" ++ query p else url in
  if nonempty (fragment p) then url ++ "#" ++ fragment p else url.

(** [del base_parts[-1]] when the last item is not empty *)
Definition drop_file (parts : list string) : list string :=
  match rev parts with
  | [] => []
  | lst :: r => if nonempty lst then rev r else parts
  end.

(** [segments[1:-1] = filter(None, segments[1:-1])] *)
Definition filter_middle (segments : list string) : list string :=
  match segments with
  | [] => []
  | h :: t =>
      match rev t with
      | [] => [h]
      | lst :: rmid => (h :: List.filter nonempty (rev rmid) ++ [lst])%list
      end
  end.

(** The loop over the segments: [resolved] is kept reversed. *)
Fixpoint resolve (segments resolved : list string) : list string :=
  match segments with
  | [] => rev resolved
  | seg :: rest =>
      if String.eqb seg ".." then resolve rest (List.tl resolved)
      else if String.eqb seg "." then resolve rest resolved
      else resolve rest (seg :: resolved)
  end.

Definition ends_relative (segments : list string) : bool :=
  match rev segments with
  | lst :: _ => String.eqb lst "." || String.eqb lst ".."
  | [] => false
  end.

(** [urljoin(base, url)]; [None] where a [urlparse] raises *)
Definition urljoin (base url : string) : option string :=
  if negb (nonempty base) then Some url
  else if negb (nonempty url) then Some base
  else
    match urlparse base with
    | None => None
    | Some b =>
        match urlparse_with url (scheme b) with
        | None => None
        | Some u =>
            if negb (String.eqb (scheme u) (scheme b))
               || negb (mem (scheme u) uses_relative)
            then Some url
            else if mem (scheme u) uses_netloc && nonempty (netloc u)
            then Some (urlunparse u)
            else
              let nl := if mem (scheme u) uses_netloc then netloc b
                        else netloc u in
              if negb (nonempty (path u)) && negb (nonempty (params u))
              then
                Some (urlunparse
                        (mkParse (scheme u) nl (path b) (params b)
                           (if nonempty (query u) then query u
                            else query b)
                           (fragment u)))
              else
                let base_parts := drop_file (split "/" (path b)) in
                let segments :=
                  if String.prefix "/" (path u) then split "/" (path u)
                  else filter_middle (base_parts ++ split "/" (path u))%list in
                let resolved := resolve segments [] in
                let resolved :=
                  if ends_relative segments then (resolved ++ [EmptyString])%list
                  else resolved in
                let joined := join "/" resolved in
                Some (urlunparse
                        (mkParse (scheme u) nl
                           (if nonempty joined then joined else "/")
                           (params u) (query u) (fragment u)))
        end
    end.

End UrlJoin.

(** ** re.findall for the patterns the crawler uses

    A pattern is a sequence of items; repetition is greedy and backtracks,
    as in Python's [re].  The only group is the capturing group 1. *)

Module PyRe.
Import PyStr.

Inductive item :=
| Lit (s : string)              (* literal text *)
| Cls (p : ascii -> bool)       (* one character of a class *)
| Star (p : ascii -> bool)      (* class*, greedy *)
| Group1Plus (p : ascii -> bool)(* (class+), greedy, captured *).

(** The rest of a pattern, as a matcher: from the text still to match
    and the text of group 1 so far, to the text of group 1 and the text
    after the match *)
Definition matcher : Type := string -> string -> option (string * string).

(** class* followed by [k]: the longest run first, then shorter ones *)
Fixpoint star (p : ascii -> bool) (k : matcher) (s g : string)
  : option (string * string) :=
  match s with
  | String c s' =>
      if p c then
        match star p k s' g with
        | Some r => Some r
        | None => k s g
        end
      else k s g
  | EmptyString => k s g
  end.

(** (class+) followed by [k]; [g] collects the text of the group *)
Fixpoint plus (p : ascii -> bool) (k : matcher) (s g : string)
  : option (string * string) :=
  match s with
  | String c s' =>
      if p c then
        let g' := g ++ String c EmptyString in
        match plus p k s' g' with
        | Some r => Some r
        | None => k s' g'
        end
      else None
  | EmptyString => None
  end.

(** Match the items at the start of a text *)
Fixpoint match_here (items : list item) : matcher :=
  match items with
  | [] => fun s g => Some (g, s)
  | Lit l :: k => fun s g =>
      match strip_prefix l s with
      | Some s' => match_here k s' g
      | None => None
      end
  | Cls p :: k => fun s g =>
      match s with
      | String c s' => if p c then match_here k s' g else None
      | EmptyString => None
      end
  | Star p :: k => star p (match_here k)
  | Group1Plus p :: k => fun s _ => plus p (match_here k) s EmptyString
  end.

(** The scan of [re.findall]: [skip] characters of [s] still belong to
    the previous match. *)
Fixpoint findall_from (items : list item) (s : string) (skip : nat)
  : list string :=
  match s with
  | EmptyString =>
      match skip, match_here items EmptyString EmptyString with
      | O, Some (g, _) => [g]
      | _, _ => []
      end
  | String _ s' =>
      match skip with
      | S n => findall_from items s' n
      | O =>
          match match_here items s EmptyString with
          | Some (g, rest) =>
              g :: findall_from items s'
                     (String.length s - String.length rest - 1)
          | None => findall_from items s' 0
          end
      end
  end.

Definition findall (items : list item) (s : string) : list string :=
  findall_from items s 0.

(** The class of the two quote characters, single (39) and double (34) *)
Definition quote (c : ascii) : bool :=
  Ascii.eqb c "039" || Ascii.eqb c "034".

(** The pattern of [discover_urls], compiled without flags:
    window\.location\.href \s* = \s* [quote] ([^quote]+) [quote] *)
Definition js_navigation : list item :=
  [Lit "window.location.href"; Star is_space; Lit "="; Star is_space;
   Cls quote; Group1Plus (fun c => negb (quote c)); Cls quote].

End PyRe.

(** ** Results of a method call: a value, or a propagated exception *)

Inductive outcome (A : Type) :=
| Returned (a : A)
| Raised (e : string).
Arguments Returned {A} a.
Arguments Raised {A} e.

(** ** RAGService.discover_urls *)

Module Crawler.
Import PyStr UrlParse UrlJoin PyRe.

(** What [BeautifulSoup] finds in a page: the [href] values of the
    anchors that have one, and the [onclick] values of the elements that
    have one, both in document order. *)
Record page := mkPage {
  hrefs : list string;
  onclicks : list string
}.

(** The answer to [requests.get(url, timeout=10)]: an exception, or a
    response with its status code and what the parser makes of its
    content ([None] when the parser raises). *)
Inductive fetch_result :=
| FetchError
| Response (status_code : Z) (soup : option page).

(** The crawl state.  [requests] is a ghost log of the calls to
    [requests.get], latest first, with the depth of each. *)
Record crawl := mkCrawl {
  discovered_urls : gset string;
  to_visit : list (string * Z);
  visited : gset string;
  requests : list (string * Z)
}.

Section Web.
(** The network: the answer may depend on the url and on how many
    requests were made before. *)
Variable fetch : nat -> string -> fetch_result.
Variable base_url : string.
Variable max_depth : Z.

(** One link: the body of either inner loop.  [None] when [urljoin] or
    [urlparse] raises. *)
Definition follow (url : string) (depth : Z) (seen : gset string)
    (target : string) (queue : list (string * Z))
  : option (list (string * Z)) :=
  match urljoin url target with
  | None => None
  | Some full_url =>
      match urlparse full_url, urlparse base_url with
      | Some p, Some b =>
          if String.eqb (netloc p) (netloc b) then
            if bool_decide (full_url ∈ seen) then Some queue
            else Some (queue ++ [(full_url, depth + 1)%Z])%list
          else Some queue
      | _, _ => None
      end
  end.

(** A loop over links; the flag is false when an exception ended it.
    What was appended before the exception stays in the queue. *)
Fixpoint follow_all (url : string) (depth : Z) (seen : gset string)
    (targets : list string) (queue : list (string * Z))
  : list (string * Z) * bool :=
  match targets with
  | [] => (queue, true)
  | t :: ts =>
      match follow url depth seen t queue with
      | None => (queue, false)
      | Some queue' => follow_all url depth seen ts queue'
      end
  end.

(** The links of a page: first the anchors, then the inline handlers *)
Definition extract_links (url : string) (depth : Z) (seen : gset string)
    (pg : page) (queue : list (string * Z)) : list (string * Z) :=
  let '(queue, ok) := follow_all url depth seen (hrefs pg) queue in
  if ok then
    fst (follow_all url depth seen
           (flat_map (findall js_navigation) (onclicks pg)) queue)
  else queue.

(** One iteration of the [while to_visit] loop; [None] when the queue
    is empty and the loop ends. *)
Definition step (st : crawl) : option crawl :=
  match to_visit st with
  | [] => None
  | (url, depth) :: rest =>
      if bool_decide (url ∈ visited st) || (max_depth <? depth)%Z then
        Some (mkCrawl (discovered_urls st) rest (visited st)
                (requests st))
      else
        let seen := {[url]} ∪ visited st in
        let log := (url, depth) :: requests st in
        match fetch (List.length (requests st)) url with
        | FetchError => Some (mkCrawl (discovered_urls st) rest seen log)
        | Response status_code soup =>
            if (status_code =? 200)%Z then
              let found := {[url]} ∪ discovered_urls st in
              if (depth <? max_depth)%Z then
                match soup with
                | None => Some (mkCrawl found rest seen log)
                | Some pg =>
                    Some (mkCrawl found
                            (extract_links url depth seen pg rest)
                            seen log)
                end
              else Some (mkCrawl found rest seen log)
            else Some (mkCrawl (discovered_urls st) rest seen log)
        end
  end.

Definition start : crawl := mkCrawl ∅ [(base_url, 0%Z)] ∅ [].

(** The loop, for at most [fuel] iterations *)
Fixpoint run (fuel : nat) (st : crawl) : option crawl :=
  match step st with
  | None => Some st
  | Some st' =>
      match fuel with
      | O => None
      | S fuel' => run fuel' st'
      end
  end.

(** The state after [n] iterations, if the loop runs that long *)
Fixpoint after (n : nat) (st : crawl) : option crawl :=
  match n with
  | O => Some st
  | S n' =>
      match step st with
      | None => None
      | Some st' => after n' st'
      end
  end.

(** [discover_urls(base_url, max_depth)]: [list(discovered_urls)], in
    the order the set gives them *)
Definition discover_urls (fuel : nat) : option (list string) :=
  match run fuel start with
  | None => None
  | Some st => Some (elements (discovered_urls st))
  end.

End Web.

End Crawler.

(** ** RAGService: state, index_website and its homepage classifier *)

Module Indexing.
Import PyStr UrlParse.

(** config.py *)
Definition BASE_URL : string := "http://localhost:3000".
Definition MAX_DEPTH : Z := 3.

Definition homepage_paths : list string :=
  [""; "index.html"; "index.htm"; "index.php"; "home.html"; "home.htm";
   "default.html"; "default.htm"].

(** [is_homepage_url(url, base_url)]; [None] where [urlparse] raises *)
Definition is_homepage_url (url base_url : string) : option bool :=
  match urlparse base_url with
  | None => None
  | Some base_parsed =>
      match urlparse url with
      | None => None
      | Some url_parsed =>
          if negb (String.eqb (scheme base_parsed) (scheme url_parsed))
             || negb (String.eqb (netloc base_parsed) (netloc url_parsed))
          then Some false
          else
            let path := strip (Ascii.eqb "/") (lower (path url_parsed)) in
            Some (mem path homepage_paths)
      end
  end.

(** A stored chunk with the metadata [index_website] attaches *)
Record node := mkNode {
  node_text : string;
  source_url : string;
  source_type : string
}.

(** The service object.  [collection] is the Chroma collection
    "harbor_website" ([None]: it does not exist); the three flags say
    that the attribute is not [None]. *)
Record service := mkService {
  collection : option (list node);
  vector_store : bool;
  index : bool;
  query_engine : bool
}.

(** The attributes as [__init__] leaves them before [_setup_vector_store] *)
Definition blank (stored : option (list node)) : service :=
  mkService stored false false false.

(** [_setup_query_engine] *)
Definition setup_query_engine (st : service) : service :=
  mkService (collection st) (vector_store st) (index st) true.

(** [_setup_vector_store]: get or create the collection, build the index
    over it, then the query engine *)
Definition setup_vector_store (st : service) : service :=
  setup_query_engine
    (mkService (Some (default [] (collection st))) true true
       (query_engine st)).

(** [RAGService()] *)
Definition init (stored : option (list node)) : service :=
  setup_vector_store (blank stored).

(** The first step of [index_website]: delete every document of the
    collection; nothing happens when the collection does not exist. *)
Definition clear (st : service) : service :=
  mkService (option_map (fun _ => []) (collection st))
    (vector_store st) (index st) (query_engine st).

(** The dictionary [index_website] returns; the early return has no
    [total_urls] and no [failed_urls]. *)
Record index_result := mkIndexResult {
  success : bool;
  message : string;
  indexed_count : Z;
  total_urls : option Z;
  failed_urls : option (list string)
}.

(** [reader.load_data([url])]: an exception, or the documents' texts *)
Inductive load_result :=
| LoadError
| Documents (docs : list string).

(** [str(n)] for an integer *)
Definition str (n : Z) : string :=
  DecimalString.NilZero.string_of_int (Z.to_int n).

(** [urls_to_index]: the urls that are not homepage variants, in order;
    [None] when a call of [is_homepage_url] raises *)
Fixpoint urls_to_index (base_url : string) (urls : list string)
  : option (list string) :=
  match urls with
  | [] => Some []
  | url :: rest =>
      match is_homepage_url url base_url with
      | None => None
      | Some home =>
          match urls_to_index base_url rest with
          | None => None
          | Some l => Some (if home then l else url :: l)
          end
      end
  end.

Section Env.
(** The page reader, and the node parser with [index.insert_nodes]:
    the chunks that reached the store and whether the calls returned
    (false: one of them raised). *)
Variable load_data : string -> load_result.
Variable ingest : string -> list string -> list string * bool.

(** The loop state: the collection, [successfully_indexed] and
    [failed_urls] *)
Definition progress : Type := list node * Z * list string.

(** The body of [for url in urls_to_index] *)
Definition index_one (acc : progress) (url : string) : progress :=
  let '(stored, successfully_indexed, failed) := acc in
  match load_data url with
  | LoadError => (stored, successfully_indexed, failed ++ [url])%list
  | Documents [] => (stored, successfully_indexed, failed ++ [url])%list
  | Documents docs =>
      let '(chunks, ok) := ingest url docs in
      let stored :=
        (stored ++ map (fun t => mkNode t url "web_page") chunks)%list in
      if ok then (stored, (successfully_indexed + 1)%Z, failed)
      else (stored, successfully_indexed, (failed ++ [url])%list)
  end.

(** [index_website] from the list comprehension on: [urls] is what
    [discover_urls] returned. *)
Definition index_urls (st : service) (base_url : string)
    (urls : list string) : service * outcome index_result :=
  match urls_to_index base_url urls with
  | None => (st, Raised "ValueError")
  | Some [] =>
      (st, Returned (mkIndexResult false
                       "No URLs to index after excluding homepage"
                       0 None None))
  | Some todo =>
      let '(stored, successfully_indexed, failed) :=
        fold_left index_one todo (default [] (collection st), 0%Z, []) in
      let total := Z.of_nat (List.length todo) in
      (setup_query_engine
         (mkService (Some stored) (vector_store st) (index st)
            (query_engine st)),
       Returned (mkIndexResult true
                   ("Indexed " ++ str successfully_indexed ++ " out of "
                    ++ str total
                    ++ " URLs (homepage variations excluded)")
                   successfully_indexed (Some total) (Some failed)))
  end.

Variable fetch : nat -> string -> Crawler.fetch_result.

(** [index_website(base_url)]; [None] when the crawl needs more than
    [fuel] iterations *)
Definition index_website (fuel : nat) (st : service)
    (base_url : option string)
  : option (service * outcome index_result) :=
  let base_url := default BASE_URL base_url in
  let st := setup_vector_store (clear st) in
  match Crawler.discover_urls fetch base_url MAX_DEPTH fuel with
  | None => None
  | Some urls => Some (index_urls st base_url urls)
  end.

End Env.

End Indexing.

(** ** RAGService.query *)

Module Querying.
Import PyStr.

(** [node.score]: the attribute is missing, [float] rejects its value
    (with the text of the exception), or it is a number.  Finite floats
    are rationals; NaN is outside the model. *)
Inductive score_attr :=
| NoScore
| BadScore (e : string)
| Score (q : Q).

(** A matched chunk: [node_url] is [metadata['source_url']], [None] when
    the node has no metadata or no such key. *)
Record node_with_score := mkMatch {
  node_url : option string;
  node_score : score_attr;
  node_text : string
}.

(** [query_engine.query(question)]: an exception with its text, or a
    response with its text and source nodes (empty when there is no such
    attribute) *)
Inductive reply :=
| EngineError (e : string)
| Answer (text : string) (source_nodes : list node_with_score).

Record source := mkSource {
  url : string;
  score : Q;
  text_snippet : string
}.

Record query_result := mkQueryResult {
  success : bool;
  message : option string;
  response : string;
  sources : list source;
  question : option string
}.

(** [text[:200] + "..." if len(text) > 200 else text] *)
Definition snippet (text : string) : string :=
  if (200 <? String.length text)%nat
  then String.substring 0 200 text ++ "..."
  else text.

(** The loop over [response.source_nodes]; [inl e] when [float] raises *)
Fixpoint extract (nodes : list node_with_score) : string + list source :=
  match nodes with
  | [] => inr []
  | n :: rest =>
      match node_url n with
      | None => extract rest
      | Some u =>
          let continue (q : Q) :=
            match extract rest with
            | inl e => inl e
            | inr l => inr (mkSource u q (snippet (node_text n)) :: l)
            end in
          match node_score n with
          | BadScore e => inl e
          | NoScore => continue 0%Q
          | Score q => continue q
          end
      end
  end.

(** The loop that removes duplicate urls *)
Fixpoint unique (srcs : list source) (seen_urls : gset string)
  : list source :=
  match srcs with
  | [] => []
  | s :: rest =>
      if bool_decide (url s ∈ seen_urls) then unique rest seen_urls
      else s :: unique rest ({[url s]} ∪ seen_urls)
  end.

(** [sort(key=score, reverse=True)].  Python's sort is stable, also with
    [reverse=True]; on a total preorder every stable sort gives the same
    list, which is computed here by insertion. *)
Fixpoint insert_desc (s : source) (l : list source) : list source :=
  match l with
  | [] => [s]
  | t :: l' =>
      if Qle_bool (score t) (score s) then s :: l
      else t :: insert_desc s l'
  end.

Fixpoint sort_desc (l : list source) : list source :=
  match l with
  | [] => []
  | s :: l' => insert_desc s (sort_desc l')
  end.

Definition failure (msg : string) : query_result :=
  mkQueryResult false (Some msg) "" [] None.

Section Engine.
Variable engine : option (list Indexing.node) -> string -> reply.

(** [query(question)] *)
Definition query (st : Indexing.service) (question : string)
  : outcome query_result :=
  if negb (Indexing.query_engine st) then
    Returned
      (failure "RAG system not initialized. Please index content first.")
  else
    match engine (Indexing.collection st) question with
    | EngineError e => Returned (failure ("Error processing query: " ++ e))
    | Answer text source_nodes =>
        match extract source_nodes with
        | inl e => Returned (failure ("Error processing query: " ++ e))
        | inr srcs =>
            Returned (mkQueryResult true None text
                        (sort_desc (unique srcs ∅)) (Some question))
        end
    end.

End Engine.

End Querying.

(** ** RAGService.get_index_stats *)

Module Stats.

(** [self.collection_name] *)
Definition COLLECTION_NAME : string := "harbor_website".

(** The dictionary [get_index_stats] returns; the success case has no
    [message], the failure case no [collection_name]. *)
Record stats := mkStats {
  success : bool;
  message : option string;
  document_count : Z;
  collection_name : option string;
  is_ready : bool
}.

Section Chroma.
(** [str(e)] for the exception [get_collection] raises when the
    collection does not exist *)
Variable not_found : string.

(** [get_index_stats()] *)
Definition get_index_stats (st : Indexing.service) : stats :=
  match Indexing.collection st with
  | Some stored =>
      let doc_count := Z.of_nat (List.length stored) in
      mkStats true None doc_count (Some COLLECTION_NAME) (0 <? doc_count)%Z
  | None =>
      mkStats false (Some ("Error getting index stats: " ++ not_found))
        0 None false
  end.

End Chroma.

End Stats.

(** ** RAGService.get_documents *)

Module Documents.

(** What [collection.get(limit, offset, include)] returns: for each key
    the list, or [None] *)
Record get_result := mkGet {
  got_ids : option (list string);
  got_documents : option (list string);
  got_metadatas : option (list (gmap string string))
}.

Record document := mkDocument {
  id : string;
  source_url : string;
  text_snippet : string;
  full_text : string;
  metadata : gmap string string
}.

(** The dictionary [get_documents] returns *)
Record listing := mkListing {
  success : bool;
  message : option string;
  documents : list document;
  total_count : Z
}.

(** [bool(result.get(key))] for a list *)
Definition truthy {A : Type} (l : option (list A)) : bool :=
  match l with
  | Some (_ :: _) => true
  | _ => false
  end.

(** [result[key][i] if result.get(key) else dflt]; [None] is IndexError *)
Definition item {A : Type} (l : option (list A)) (i : nat) (dflt : A)
  : option A :=
  if truthy l then default [] l !! i else Some dflt.

(** The loop [for i, doc_text in enumerate(result["documents"])], from
    index [i] on; [inl e] when an index is out of range *)
Fixpoint build (result : get_result) (i : nat) (texts : list string)
  : string + list document :=
  match texts with
  | [] => inr []
  | doc_text :: rest =>
      match item (got_ids result) i ("doc_" ++ Indexing.str (Z.of_nat i)),
            item (got_metadatas result) i ∅ with
      | Some doc_id, Some metadata =>
          match build result (S i) rest with
          | inl e => inl e
          | inr l =>
              inr (mkDocument doc_id
                     (default "unknown" (metadata !! "source_url"))
                     (Querying.snippet doc_text) doc_text metadata :: l)
          end
      | _, _ => inl "list index out of range"
      end
  end.

Definition failure (e : string) : listing :=
  mkListing false (Some ("Error getting documents: " ++ e)) [] 0.

Section Chroma.
Variable not_found : string.
(** The store's answer to [get] over the stored chunks: an exception with
    its text, or the result *)
Variable chroma_get : list Indexing.node -> Z -> Z -> string + get_result.

(** [get_documents(limit, offset)] *)
Definition get_documents (st : Indexing.service) (limit offset : Z)
  : listing :=
  match Indexing.collection st with
  | None => failure not_found
  | Some stored =>
      match chroma_get stored limit offset with
      | inl e => failure e
      | inr result =>
          let built :=
            if truthy (got_documents result)
            then build result 0 (default [] (got_documents result))
            else inr [] in
          match built with
          | inl e => failure e
          | inr docs =>
              mkListing true None docs (Z.of_nat (List.length stored))
          end
      end
  end.

End Chroma.

End Documents.

(** ** main.py: the route handlers

    A handler returns its response body or raises [HTTPException]; the
    global [rag_service] is [None] until the service has been built. *)

Inductive http (A : Type) :=
| Ok (body : A)
| HTTPException (status_code : Z) (detail : string).
Arguments Ok {A} body.
Arguments HTTPException {A} status_code detail.

(** The guard every handler starts with *)
Definition require_service {A : Type}
    (rag_service : option Indexing.service)
    (handler : Indexing.service -> http A) : http A :=
  match rag_service with
  | None => HTTPException 503 "RAG service not initialized"
  | Some st => handler st
  end.

Module ChatApi.
Import PyStr.

Record QueryRequest := mkQueryRequest {
  request_question : string;
  request_model : option string;
  request_messages : option (list (gmap string string))
}.

Record QueryResponse := mkQueryResponse {
  success : bool;
  response : string;
  sources : list Querying.source;
  question : string;
  message : option string
}.

(** The loop over [reversed(request.messages)]: the content of the last
    message whose role is user, [""] when it has none; [None] when no
    message has that role *)
Definition last_user_content (messages : list (gmap string string))
  : option string :=
  match List.find (fun msg => bool_decide (msg !! "role" = Some "user"))
          (rev messages) with
  | Some msg => Some (default "" (msg !! "content"))
  | None => None
  end.

(** The question the handler works with *)
Definition derive_question (request : QueryRequest) : string :=
  if negb (nonempty (request_question request))
     && Documents.truthy (request_messages request)
  then default (request_question request)
         (last_user_content (default [] (request_messages request)))
  else request_question request.

Section Service.
Variable engine : option (list Indexing.node) -> string -> Querying.reply.
(** [str(e)] for an [HTTPException], which the framework defines *)
Variable http_str : Z -> string -> string.

(** POST /api/chat *)
Definition chat (rag_service : option Indexing.service)
    (request : QueryRequest) : http QueryResponse :=
  require_service rag_service (fun st =>
    let question := derive_question request in
    if negb (nonempty question) then
      HTTPException 400 "No question provided"
    else
      match Querying.query engine st question with
      | Raised e => HTTPException 500 e
      | Returned result =>
          if negb (Querying.success result) then
            HTTPException 500
              (http_str 500
                 (default "Query failed" (Querying.message result)))
          else
            match Querying.question result with
            | None => HTTPException 500 "'question'"
            | Some q =>
                Ok (mkQueryResponse true (Querying.response result)
                      (Querying.sources result) q None)
            end
      end).

End Service.

End ChatApi.

Module StatsApi.

Record HealthResponse := mkHealth {
  status : string;
  rag_ready : bool;
  health_document_count : Z
}.

Record StatsResponse := mkStatsResponse {
  success : bool;
  document_count : Z;
  collection_name : string;
  is_ready : bool;
  message : option string
}.

Section Chroma.
Variable not_found : string.

(** GET /health *)
Definition health_check (rag_service : option Indexing.service)
  : http HealthResponse :=
  require_service rag_service (fun st =>
    let stats := Stats.get_index_stats not_found st in
    Ok (mkHealth "healthy" (Stats.is_ready stats)
          (Stats.document_count stats))).

(** GET /api/stats; a missing key is a [KeyError], whose text is the key
    in quotes *)
Definition get_stats (rag_service : option Indexing.service)
  : http StatsResponse :=
  require_service rag_service (fun st =>
    let result := Stats.get_index_stats not_found st in
    match Stats.collection_name result with
    | None => HTTPException 500 "'collection_name'"
    | Some name =>
        Ok (mkStatsResponse (Stats.success result)
              (Stats.document_count result) name (Stats.is_ready result)
              (Stats.message result))
    end).

End Chroma.

End StatsApi.

Module IndexApi.

Record DiscoverResponse := mkDiscover {
  success : bool;
  urls : list string;
  total_count : Z;
  message : option string
}.

Section Env.
Variable load_data : string -> Indexing.load_result.
Variable ingest : string -> list string -> list string * bool.
Variable fetch : nat -> string -> Crawler.fetch_result.

(** POST /api/index: the service after the call and the answer; [None]
    when the crawl needs more than [fuel] iterations.  The response has
    the fields of the dictionary, the two optional ones read with [get]. *)
Definition index_website (fuel : nat)
    (rag_service : option Indexing.service) (base_url : option string)
  : option (option Indexing.service * http Indexing.index_result) :=
  match rag_service with
  | None => Some (None, HTTPException 503 "RAG service not initialized")
  | Some st =>
      match Indexing.index_website load_data ingest fetch fuel st base_url
      with
      | None => None
      | Some (st', Returned result) => Some (Some st', Ok result)
      | Some (st', Raised e) => Some (Some st', HTTPException 500 e)
      end
  end.

(** GET /api/discover *)
Definition discover_urls (fuel : nat)
    (rag_service : option Indexing.service) (base_url : string)
  : option (http DiscoverResponse) :=
  match rag_service with
  | None => Some (HTTPException 503 "RAG service not initialized")
  | Some st =>
      match Crawler.discover_urls fetch base_url Indexing.MAX_DEPTH fuel
      with
      | None => None
      | Some urls =>
          Some (Ok (mkDiscover true urls (Z.of_nat (List.length urls))
                      None))
      end
  end.

End Env.

End IndexApi.

Module DocumentsApi.

Record DocumentsResponse := mkDocumentsResponse {
  success : bool;
  documents : list Documents.document;
  total_count : Z;
  message : option string
}.

Section Chroma.
Variable not_found : string.
Variable chroma_get
  : list Indexing.node -> Z -> Z -> string + Documents.get_result.

(** GET /api/documents *)
Definition get_documents (rag_service : option Indexing.service)
    (limit offset : Z) : http DocumentsResponse :=
  require_service rag_service (fun st =>
    let result :=
      Documents.get_documents not_found chroma_get st limit offset in
    Ok (mkDocumentsResponse (Documents.success result)
          (Documents.documents result) (Documents.total_count result)
          (Documents.message result))).

End Chroma.

End DocumentsApi.

(** ** Sample environments, used to evaluate the model *)

Module Examples.
Import Crawler.

(** A site at http://x/ whose front page links to the same host over
    https, to another host, to a page that is missing, to itself, and to
    one more page through an inline handler. *)
Definition mixed_site (n : nat) (u : string) : fetch_result :=
  if String.eqb u "http://x/" then
    Response 200
      (Some (mkPage ["https://x/a"; "http://y/b"; "c"; "/"]
               ["window.location.href='d.html'"]))
  else if String.eqb u "http://x/c" then Response 404 None
  else Response 200 (Some (mkPage ["/"] [])).

(** A site with a front page, an index page and three content pages *)
Definition three_page_site (n : nat) (u : string) : fetch_result :=
  if String.eqb u "http://x/" then
    Response 200 (Some (mkPage ["a"; "b"; "c"; "index.html"] []))
  else Response 200 (Some (mkPage [] [])).

(** A site whose pages are all homepage variants *)
Definition landing_site (n : nat) (u : string) : fetch_result :=
  Response 200 (Some (mkPage ["/"; "index.html"; "/INDEX.PHP#top"] [])).

(** A reader that fails on one page, and a store that takes every chunk *)
Definition flaky_reader (u : string) : Indexing.load_result :=
  if String.eqb u "http://x/b" then Indexing.LoadError
  else Indexing.Documents ["text of " ++ u].

Definition store_all (u : string) (docs : list string)
  : list string * bool := (docs, true).

(** An engine that retrieves nothing and says so *)
Definition empty_engine (stored : option (list Indexing.node))
    (question : string) : Querying.reply :=
  Querying.Answer "Empty Response" [].

(** An engine that matches two chunks of one page and one of another *)
Definition two_page_engine (stored : option (list Indexing.node))
    (question : string) : Querying.reply :=
  Querying.Answer "The harbor opens at nine."
    [Querying.mkMatch (Some "http://x/a") (Querying.Score (1 # 2)) "hours";
     Querying.mkMatch (Some "http://x/b") (Querying.Score (3 # 4)) "map";
     Querying.mkMatch (Some "http://x/a") (Querying.Score (9 # 10)) "fees"].

(** An engine one of whose matches has no usable score *)
Definition unscored_engine (stored : option (list Indexing.node))
    (question : string) : Querying.reply :=
  Querying.Answer "The harbor opens at nine."
    [Querying.mkMatch (Some "http://x/a") (Querying.Score (1 # 2)) "hours";
     Querying.mkMatch (Some "http://x/b")
       (Querying.BadScore "float() argument must be a real number")
       "map"].


(** A conversation that ends with a user message *)
Definition conversation : list (gmap string string) :=
  [ {[ "role" := "user"; "content" := "Where is the harbor?" ]};
    {[ "role" := "assistant"; "content" := "On the coast." ]};
    {[ "role" := "user"; "content" := "When does it open?" ]};
    {[ "role" := "assistant" ]} ].

End Examples.

(** * The vocabulary of the properties *)

Module Spec.
Import PyStr UrlParse.
Local Open Scope list_scope.

(** The characters that start the query and the fragment *)
Definition marker (c : ascii) : bool := Ascii.eqb c "?" || Ascii.eqb c "#".

(** The path cut of [urlsplit]: the text before the first marker *)
Definition path_of (u : string) : string :=
  fst (break (Ascii.eqb "?") (fst (break (Ascii.eqb "#") u))).

(** Two parses that agree on scheme, netloc, path and parameters *)
Definition same_location (a b : option ParseResult) : Prop :=
  match a, b with
  | Some p, Some q =>
      scheme p = scheme q /\ netloc p = netloc q /\ path p = path q
      /\ params p = params q
  | None, None => True
  | _, _ => False
  end.

(** The path as [is_homepage_url] compares it: lowercased, then without
    leading and trailing slashes *)
Definition normalized (p : ParseResult) : string :=
  strip (Ascii.eqb "/") (lower (path p)).

(** The component [discover_urls] compares: [urlparse(u).netloc], [None]
    where [urlparse] raises *)
Definition netloc_of (u : string) : option string :=
  option_map netloc (urlparse u).

Definition scheme_of (u : string) : option string :=
  option_map scheme (urlparse u).

(** Links appended while a page at [depth] is processed *)
Definition fresh (base_url : string) (depth : Z)
    (new : list (string * Z)) : Prop :=
  forall u d, (u, d) ∈ new ->
    d = (depth + 1)%Z /\ netloc_of u = netloc_of base_url.

(** The invariant of the crawl loop *)
Record crawl_inv (base_url : string) (max_depth : Z) (st : Crawler.crawl)
  : Prop := {
  inv_once : NoDup (Crawler.requests st).*1;
  inv_seen : forall u d, (u, d) ∈ Crawler.requests st ->
               u ∈ Crawler.visited st;
  inv_depth : forall u d, (u, d) ∈ Crawler.requests st ->
                (d <= max_depth)%Z;
  inv_queue : forall u d, (u, d) ∈ Crawler.to_visit st ->
                netloc_of u = netloc_of base_url;
  inv_found : forall u, u ∈ Crawler.discovered_urls st ->
                netloc_of u = netloc_of base_url
}.

(** Every entry of the queue is less than [k] levels above [max_depth] *)
Definition shallow (max_depth : Z) (k : nat) (queue : list (string * Z))
  : Prop :=
  forall u d, (u, d) ∈ queue -> (max_depth - d < Z.of_nat k)%Z.

(** The loop ends from a state *)
Definition halts (fetch : nat -> string -> Crawler.fetch_result)
    (base_url : string) (max_depth : Z) (st : Crawler.crawl) : Prop :=
  exists fuel st', Crawler.run fetch base_url max_depth fuel st = Some st'.

(** A url is indexed when the reader returns documents and the parser and
    the store take them; otherwise it fails. *)
Definition indexed (load_data : string -> Indexing.load_result)
    (ingest : string -> list string -> list string * bool)
    (url : string) : bool :=
  match load_data url with
  | Indexing.LoadError => false
  | Indexing.Documents [] => false
  | Indexing.Documents docs => snd (ingest url docs)
  end.



End Spec.

(** Further vocabulary, for the properties of the remaining code *)

Module SpecMore.
Local Open Scope list_scope.

(** The answer is a response with status 200 *)
Definition is_200 (r : Crawler.fetch_result) : bool :=
  match r with
  | Crawler.Response status_code _ => (status_code =? 200)%Z
  | Crawler.FetchError => false
  end.

(** In a log of requests (latest first), [u] was requested and the
    request, the [i]-th of the run, was answered with status 200 *)
Definition answered (fetch : nat -> string -> Crawler.fetch_result)
    (log : list (string * Z)) (u : string) : Prop :=
  exists i d, rev log !! i = Some (u, d) /\ is_200 (fetch i u) = true.

(** The discovered set holds the urls that were answered *)
Definition found_inv (fetch : nat -> string -> Crawler.fetch_result)
    (st : Crawler.crawl) : Prop :=
  forall u, u ∈ Crawler.discovered_urls st
            <-> answered fetch (Crawler.requests st) u.

(** The chunks [index_website] stores for a url: those the store took
    from the documents the reader returned *)
Definition stored_for (load_data : string -> Indexing.load_result)
    (ingest : string -> list string -> list string * bool)
    (url : string) : list Indexing.node :=
  match load_data url with
  | Indexing.LoadError => []
  | Indexing.Documents [] => []
  | Indexing.Documents docs =>
      map (fun t => Indexing.mkNode t url "web_page")
        (fst (ingest url docs))
  end.

(** A citation is built from a matched chunk that has a url: its url,
    its score (0 when the chunk has no score attribute) and the snippet of
    its text *)
Definition cites (n : Querying.node_with_score) (s : Querying.source)
  : Prop :=
  Querying.node_url n = Some (Querying.url s)
  /\ Querying.text_snippet s = Querying.snippet (Querying.node_text n)
  /\ (Querying.node_score n = Querying.Score (Querying.score s)
      \/ (Querying.node_score n = Querying.NoScore
          /\ Querying.score s = 0%Q)).

End SpecMore.

(** * Properties *)

(** ** Strings *)

Module PyStrFacts.
Import PyStr.

Lemma app_nil (v : string) : EmptyString ++ v = v.
Proof. reflexivity. Qed.

Lemma app_cons c (w v : string) : String c w ++ v = String c (w ++ v).
Proof. reflexivity. Qed.

Lemma append_assoc_s (a b c : string) : (a ++ b) ++ c = a ++ (b ++ c).
Proof.
  induction a as [|x a IH]; [reflexivity|].
  rewrite !app_cons, IH. reflexivity.
Qed.

Lemma any_app p a b : any p (a ++ b) = any p a || any p b.
Proof.
  induction a as [|c a IH]; simpl; [reflexivity|].
  rewrite IH. apply orb_assoc.
Qed.

Lemma any_false_inv p c s :
  any p (String c s) = false -> p c = false /\ any p s = false.
Proof. simpl. apply orb_false_elim. Qed.

Lemma all_app p a b : all p (a ++ b) = all p a && all p b.
Proof.
  induction a as [|c a IH]; simpl; [reflexivity|].
  rewrite IH. apply andb_assoc.
Qed.

Lemma remove_app p a b : remove p (a ++ b) = remove p a ++ remove p b.
Proof.
  induction a as [|c a IH]; simpl; [reflexivity|].
  destruct (p c); simpl; rewrite IH; reflexivity.
Qed.

Lemma lstrip_app_stop p w c t :
  p c = false -> lstrip p (w ++ String c t) = lstrip p w ++ String c t.
Proof.
  intros Hc. induction w as [|d w IH]; simpl.
  - rewrite Hc. reflexivity.
  - destruct (p d); [exact IH | reflexivity].
Qed.

Lemma any_lstrip q p w : any q w = false -> any q (lstrip p w) = false.
Proof.
  induction w as [|d w IH]; simpl; [reflexivity|].
  intros H. destruct (p d); [|exact H].
  apply IH. apply orb_false_elim in H. apply H.
Qed.

Lemma any_remove q p w : any q w = false -> any q (remove p w) = false.
Proof.
  induction w as [|d w IH]; simpl; [reflexivity|].
  intros H. apply orb_false_elim in H. destruct H as [Hd Hw].
  destruct (p d); simpl; [|rewrite Hd]; auto.
Qed.

Lemma any_lower_char_free q w :
  (forall c, q (lower_char c) = q c) -> any q (lower w) = any q w.
Proof.
  intros Hq. induction w as [|d w IH]; simpl; [reflexivity|].
  rewrite Hq, IH. reflexivity.
Qed.

(** [break] stops at the first selected character, wherever a later one
    is appended. *)
Lemma break_app_hit p w c t :
  p c = true ->
  break p (w ++ String c t)
  = (fst (break p w), snd (break p w) ++ String c t).
Proof.
  intros Hc. induction w as [|d w IH]; simpl.
  - rewrite Hc. reflexivity.
  - destruct (p d); [reflexivity|].
    rewrite IH. destruct (break p w). reflexivity.
Qed.

Lemma break_none p w : any p w = false -> break p w = (w, EmptyString).
Proof.
  induction w as [|d w IH]; simpl; [reflexivity|].
  intros H. apply orb_false_elim in H. destruct H as [Hd Hw].
  rewrite Hd, (IH Hw). reflexivity.
Qed.

Lemma break_app_miss p w v :
  any p w = false ->
  break p (w ++ v) = (w ++ fst (break p v), snd (break p v)).
Proof.
  induction w as [|d w IH].
  - intros _. rewrite !app_nil. destruct (break p v). reflexivity.
  - intros H. apply orb_false_elim in H. destruct H as [Hd Hw].
    rewrite !app_cons. simpl. rewrite Hd, (IH Hw). reflexivity.
Qed.

Lemma any_break q p w :
  any q w = false ->
  any q (fst (break p w)) = false /\ any q (snd (break p w)) = false.
Proof.
  induction w as [|d w IH]; simpl; [split; reflexivity|].
  intros H. destruct (p d); simpl; [split; [reflexivity | exact H]|].
  apply orb_false_elim in H. destruct H as [Hd Hw].
  destruct (IH Hw) as [H1 H2]. destruct (break p w); simpl in *.
  rewrite Hd, H1, H2. split; reflexivity.
Qed.

Lemma any_tail q w : any q w = false -> any q (tail w) = false.
Proof.
  destruct w; simpl; [reflexivity|].
  intros H. apply orb_false_elim in H. apply H.
Qed.

Lemma tail_app_nonempty w v :
  w <> EmptyString -> tail (w ++ v) = tail w ++ v.
Proof. destruct w; [congruence | reflexivity]. Qed.

Lemma mem_In x l : mem x l = true <-> In x l.
Proof.
  unfold mem. rewrite existsb_exists. split.
  - intros [y [Hy He]]. apply String.eqb_eq in He. subst. exact Hy.
  - intros H. exists x. split; [exact H | apply String.eqb_refl].
Qed.

End PyStrFacts.

(** ** urlparse: what follows the path does not reach scheme, netloc, path *)

Module UrlParseFacts.
Import PyStr PyStrFacts UrlParse Spec.

Lemma marker_cases c : marker c = true -> c = "?"%char \/ c = "#"%char.
Proof.
  unfold marker. intros H. apply orb_true_iff in H.
  destruct H as [H|H]; apply Ascii.eqb_eq in H; auto.
Qed.

Lemma break_app_found p w v a d b :
  break p w = (a, String d b) -> break p (w ++ v) = (a, String d b ++ v).
Proof.
  revert a. induction w as [|e w IH]; intros a; simpl; [congruence|].
  rewrite app_cons. simpl. destruct (p e).
  - intros H. injection H as <- <- <-. reflexivity.
  - destruct (break p w) as [a' b'] eqn:E. intros H.
    injection H as <- ->. rewrite (IH a' eq_refl). reflexivity.
Qed.

Lemma break_snd_empty p w a :
  break p w = (a, EmptyString) -> any p w = false.
Proof.
  revert a. induction w as [|e w IH]; intros a; simpl; [reflexivity|].
  destruct (p e); [congruence|].
  destruct (break p w) as [a' b'] eqn:E. intros H.
  injection H as <- ->. simpl. apply (IH a' eq_refl).
Qed.

Lemma break_cons_miss p c t :
  p c = false ->
  break p (String c t) = (String c (fst (break p t)), snd (break p t)).
Proof.
  intros H. simpl. rewrite H. destruct (break p t). reflexivity.
Qed.

Lemma split_scheme_app dflt w c t :
  marker c = true ->
  split_scheme dflt (w ++ String c t)
  = (fst (split_scheme dflt w), snd (split_scheme dflt w) ++ String c t).
Proof.
  intros Hc. unfold split_scheme.
  destruct (break (Ascii.eqb ":") w) as [pre rest] eqn:E.
  destruct rest as [|d rest].
  - pose proof (break_snd_empty _ _ _ E) as Hw.
    rewrite (break_none _ _ Hw) in E. injection E as <-.
    rewrite (break_app_miss _ _ (String c t) Hw).
    assert (Hsc : scheme_char c = false)
      by (destruct (marker_cases c Hc) as [-> | ->]; reflexivity).
    assert (Hcol : Ascii.eqb ":" c = false)
      by (destruct (marker_cases c Hc) as [-> | ->]; reflexivity).
    rewrite (break_cons_miss _ _ _ Hcol).
    destruct (break (Ascii.eqb ":") t) as [a b]. cbn [fst snd].
    assert (Hall : all scheme_char (w ++ String c a) = false).
    { rewrite all_app. simpl. rewrite Hsc. apply andb_false_r. }
    destruct (w ++ String c a) as [|c0 z] eqn:Ez.
    + destruct w; reflexivity.
    + destruct b as [|e b].
      * destruct w; reflexivity.
      * rewrite Hall, andb_false_r. destruct w; reflexivity.
  - rewrite (break_app_found _ _ (String c t) _ _ _ E).
    rewrite app_cons.
    destruct pre as [|c0 pre]; [reflexivity|].
    destruct (is_ascii_alpha c0 && all scheme_char (String c0 pre));
      reflexivity.
Qed.

Lemma split_scheme_marker_free dflt w :
  any marker w = false -> any marker (snd (split_scheme dflt w)) = false.
Proof.
  intros Hw. unfold split_scheme.
  pose proof (any_break marker (Ascii.eqb ":") w Hw) as [_ Hb].
  destruct (break (Ascii.eqb ":") w) as [pre rest].
  destruct pre as [|c0 pre]; [exact Hw|].
  destruct rest as [|d rest]; [exact Hw|].
  destruct (is_ascii_alpha c0 && all scheme_char (String c0 pre));
    [|exact Hw].
  simpl in *. apply orb_false_elim in Hb. apply Hb.
Qed.

Lemma netloc_delim_marker c : marker c = true -> netloc_delim c = true.
Proof.
  intros H. destruct (marker_cases c H) as [-> | ->]; reflexivity.
Qed.

Lemma strip_prefix_slashes_app r c t :
  marker c = true ->
  strip_prefix "//" (r ++ String c t)
  = option_map (fun x => x ++ String c t) (strip_prefix "//" r).
Proof.
  intros Hc.
  assert (Hs : Ascii.eqb "/" c = false)
    by (destruct (marker_cases c Hc) as [-> | ->]; reflexivity).
  destruct r as [|d r]; rewrite ?app_nil, ?app_cons; cbn [strip_prefix].
  - rewrite Hs. reflexivity.
  - destruct (Ascii.eqb "/" d); [|reflexivity].
    destruct r as [|e r]; rewrite ?app_nil, ?app_cons; cbn [strip_prefix].
    + rewrite Hs. reflexivity.
    + destruct (Ascii.eqb "/" e); reflexivity.
Qed.

Lemma strip_prefix_marker_free pre r x :
  any marker r = false -> strip_prefix pre r = Some x ->
  any marker x = false.
Proof.
  revert r. induction pre as [|a pre IH]; intros r Hr; simpl.
  - congruence.
  - destruct r as [|b r]; [congruence|].
    apply orb_false_elim in Hr. destruct Hr as [_ Hr].
    destruct (Ascii.eqb a b); [apply IH; exact Hr | congruence].
Qed.

Lemma split_netloc_app r c t :
  marker c = true ->
  split_netloc (r ++ String c t)
  = (fst (split_netloc r), snd (split_netloc r) ++ String c t).
Proof.
  intros Hc. unfold split_netloc.
  rewrite (strip_prefix_slashes_app r c t Hc).
  destruct (strip_prefix "//" r) as [x|]; simpl; [|reflexivity].
  apply break_app_hit. apply netloc_delim_marker. exact Hc.
Qed.

Lemma split_netloc_marker_free r :
  any marker r = false -> any marker (snd (split_netloc r)) = false.
Proof.
  intros Hr. unfold split_netloc.
  destruct (strip_prefix "//" r) as [x|] eqn:E; [|exact Hr].
  apply any_break. eapply strip_prefix_marker_free; eauto.
Qed.

Lemma any_weaken (p q : ascii -> bool) w :
  (forall c, p c = true -> q c = true) ->
  any q w = false -> any p w = false.
Proof.
  intros Hpq. induction w as [|d w IH]; simpl; [reflexivity|].
  intros H. apply orb_false_elim in H. destruct H as [Hd Hw].
  rewrite (IH Hw), orb_false_r.
  destruct (p d) eqn:E; [|reflexivity].
  rewrite (Hpq d E) in Hd. discriminate.
Qed.

Lemma no_question u : any marker u = false -> any (Ascii.eqb "?") u = false.
Proof.
  apply any_weaken. intros c H. unfold marker. rewrite Ascii.eqb_sym, H.
  reflexivity.
Qed.

Lemma no_hash u : any marker u = false -> any (Ascii.eqb "#") u = false.
Proof.
  apply any_weaken. intros c H. unfold marker.
  rewrite (Ascii.eqb_sym c "#"), H. apply orb_true_r.
Qed.

Lemma path_of_marker_free u : any marker u = false -> path_of u = u.
Proof.
  intros Hu. unfold path_of.
  rewrite (break_none _ _ (no_hash u Hu)). simpl.
  rewrite (break_none _ _ (no_question u Hu)). reflexivity.
Qed.

Lemma path_of_app u c t :
  any marker u = false -> marker c = true ->
  path_of (u ++ String c t) = u.
Proof.
  intros Hu Hc. unfold path_of.
  destruct (marker_cases c Hc) as [-> | ->].
  - rewrite (break_app_miss _ _ _ (no_hash u Hu)). simpl.
    destruct (break (Ascii.eqb "#") t) as [a b]. simpl.
    rewrite break_app_hit by reflexivity.
    rewrite (break_none _ _ (no_question u Hu)). reflexivity.
  - rewrite break_app_hit by reflexivity.
    rewrite (break_none _ _ (no_hash u Hu)). simpl.
    rewrite (break_none _ _ (no_question u Hu)). reflexivity.
Qed.

(** [urlsplit] with its destructuring written as projections *)
Lemma urlsplit_eq url dflt :
  urlsplit url dflt =
  let ss := split_scheme (remove unsafe_byte (strip c0_or_space dflt))
              (remove unsafe_byte (lstrip c0_or_space url)) in
  let sn := split_netloc (snd ss) in
  if brackets_ok (fst sn) then
    let bf := break (Ascii.eqb "#") (snd sn) in
    let bq := break (Ascii.eqb "?") (fst bf) in
    Some (fst ss, fst sn, fst bq, tail (snd bq), tail (snd bf))
  else None.
Proof.
  unfold urlsplit. cbv zeta.
  destruct (split_scheme _ _) as [sch r]. simpl.
  destruct (split_netloc r) as [nl u]. simpl.
  destruct (brackets_ok nl); [|reflexivity].
  destruct (break (Ascii.eqb "#") u) as [a f]. simpl.
  destruct (break (Ascii.eqb "?") a) as [p q]. reflexivity.
Qed.

Lemma urlparse_with_suffix url dflt c t :
  any marker url = false -> marker c = true ->
  same_location (urlparse_with (url ++ String c t) dflt)
                (urlparse_with url dflt).
Proof.
  intros Hu Hc. unfold urlparse_with. rewrite !urlsplit_eq. cbv zeta.
  assert (Hc0 : c0_or_space c = false)
    by (destruct (marker_cases c Hc) as [-> | ->]; reflexivity).
  assert (Hun : unsafe_byte c = false)
    by (destruct (marker_cases c Hc) as [-> | ->]; reflexivity).
  rewrite (lstrip_app_stop _ _ _ _ Hc0), remove_app.
  simpl (remove unsafe_byte (String c t)). rewrite Hun.
  set (w := remove unsafe_byte (lstrip c0_or_space url)).
  set (d := remove unsafe_byte (strip c0_or_space dflt)).
  set (t' := remove unsafe_byte t).
  assert (Hw : any marker w = false)
    by (apply any_remove, any_lstrip; exact Hu).
  rewrite (split_scheme_app d w c t' Hc). simpl fst. simpl snd.
  pose proof (split_scheme_marker_free d w Hw) as Hr.
  set (sch := fst (split_scheme d w)) in *.
  set (r := snd (split_scheme d w)) in *.
  rewrite (split_netloc_app r c t' Hc). simpl fst. simpl snd.
  pose proof (split_netloc_marker_free r Hr) as Hx.
  set (nl := fst (split_netloc r)) in *.
  set (x := snd (split_netloc r)) in *.
  destruct (brackets_ok nl); [|exact I].
  fold (path_of (x ++ String c t')). fold (path_of x).
  rewrite (path_of_app x c t' Hx Hc), (path_of_marker_free x Hx).
  destruct (mem sch uses_params && any (Ascii.eqb ";") x).
  - destruct (splitparams x) as [p ps]. simpl. auto.
  - simpl. auto.
Qed.

End UrlParseFacts.

(** ** The homepage classifier *)

Module HomepageProofs.
Import PyStr PyStrFacts UrlParse UrlParseFacts Indexing Spec.

Lemma is_homepage_url_parsed url base_url u b :
  urlparse url = Some u -> urlparse base_url = Some b ->
  is_homepage_url url base_url
  = Some (String.eqb (scheme b) (scheme u)
          && String.eqb (netloc b) (netloc u)
          && mem (normalized u) homepage_paths).
Proof.
  intros Hu Hb. unfold is_homepage_url, normalized. rewrite Hb, Hu.
  destruct (String.eqb (scheme b) (scheme u)); [|reflexivity].
  destruct (String.eqb (netloc b) (netloc u)); reflexivity.
Qed.

Lemma homepage_paths_spec p :
  mem p homepage_paths = true <->
  p = "" \/ p = "index.html" \/ p = "index.htm" \/ p = "index.php"
  \/ p = "home.html" \/ p = "home.htm" \/ p = "default.html"
  \/ p = "default.htm".
Proof.
  rewrite mem_In. unfold homepage_paths. simpl.
  intuition (subst; auto).
Qed.

(** C5.  For a url and a base url that both parse, [is_homepage_url]
    returns false when the scheme or the host (the netloc component,
    which is what the code compares) of the two differ; when both agree
    it returns true exactly when the path of the url, lowercased and
    stripped of leading and trailing slashes, is the empty string,
    index.html, index.htm, index.php, home.html, home.htm, default.html
    or default.htm.  The four examples of the specification evaluate as
    stated. *)
Theorem is_homepage_url_classifies (url base_url : string)
    (u b : ParseResult) :
  urlparse url = Some u -> urlparse base_url = Some b ->
  (scheme u <> scheme b \/ netloc u <> netloc b ->
   is_homepage_url url base_url = Some false)
  /\ (scheme u = scheme b -> netloc u = netloc b ->
      exists r, is_homepage_url url base_url = Some r
        /\ (r = true <->
            normalized u = "" \/ normalized u = "index.html"
            \/ normalized u = "index.htm" \/ normalized u = "index.php"
            \/ normalized u = "home.html" \/ normalized u = "home.htm"
            \/ normalized u = "default.html"
            \/ normalized u = "default.htm"))
  /\ is_homepage_url "http://x/" "http://x" = Some true
  /\ is_homepage_url "http://x/INDEX.HTML" "http://x" = Some true
  /\ is_homepage_url "http://x/about" "http://x" = Some false
  /\ is_homepage_url "http://y/" "http://x" = Some false.
Proof.
  intros Hu Hb. rewrite (is_homepage_url_parsed _ _ _ _ Hu Hb).
  split; [|split; [|repeat split; reflexivity]].
  - intros [H|H].
    + destruct (String.eqb_spec (scheme b) (scheme u)) as [E|E];
        [congruence | reflexivity].
    + destruct (String.eqb_spec (netloc b) (netloc u)) as [E|E];
        [congruence | apply f_equal, andb_false_iff; left;
                      apply andb_false_r].
  - intros Hs Hn. rewrite Hs, Hn, !String.eqb_refl. simpl.
    eexists. split; [reflexivity|]. apply homepage_paths_spec.
Qed.

Lemma is_homepage_url_classifies_witness :
  is_homepage_url "https://x/Home.HTM" "http://x" = Some false
  /\ exists r, is_homepage_url "http://x//Home.HTM/" "http://x" = Some r.
Proof.
  split.
  - refine (proj1 (is_homepage_url_classifies "https://x/Home.HTM"
                     "http://x"
                     (mkParse "https" "x" "/Home.HTM" "" "" "")
                     (mkParse "http" "x" "" "" "" "")
                     eq_refl eq_refl) _).
    left. discriminate.
  - destruct (proj1 (proj2 (is_homepage_url_classifies
                     "http://x//Home.HTM/" "http://x"
                     (mkParse "http" "x" "//Home.HTM/" "" "" "")
                     (mkParse "http" "x" "" "" "" "")
                     eq_refl eq_refl)) eq_refl eq_refl) as [r [Hr _]].
    exists r. exact Hr.
Defined.

(** C10.  The classifier ignores the query string and the fragment: for
    a url without either, with the scheme and the host (netloc) of the
    base url and a path that normalizes to a homepage alias, the url
    followed by a query string or a fragment (a question mark or a hash
    and any text) is classified as a homepage; for example
    http://x/index.html?page=2. *)
Theorem is_homepage_url_ignores_query_and_fragment
    (url base_url rest : string) (c : ascii) (u b : ParseResult) :
  any marker url = false -> marker c = true ->
  urlparse url = Some u -> urlparse base_url = Some b ->
  scheme u = scheme b -> netloc u = netloc b ->
  In (normalized u) homepage_paths ->
  is_homepage_url (url ++ String c rest) base_url = Some true
  /\ is_homepage_url "http://x/index.html?page=2" "http://x" = Some true.
Proof.
  intros Hfree Hc Hu Hb Hs Hn Hp. split; [|reflexivity].
  pose proof (urlparse_with_suffix url "" c rest Hfree Hc) as H.
  fold (urlparse (url ++ String c rest)) in H. fold (urlparse url) in H.
  rewrite Hu in H.
  destruct (urlparse (url ++ String c rest)) as [v|] eqn:Hv;
    [|contradiction].
  destruct H as (Hvs & Hvn & Hvp & _).
  rewrite (is_homepage_url_parsed _ _ _ _ Hv Hb).
  apply (proj2 (mem_In _ _)) in Hp.
  unfold normalized in *.
  rewrite Hvs, Hvn, Hvp, Hs, Hn, !String.eqb_refl, Hp. reflexivity.
Qed.

Lemma is_homepage_url_ignores_query_and_fragment_witness :
  is_homepage_url "http://x/Default.htm#top?a" "http://x" = Some true.
Proof.
  refine (proj1 (is_homepage_url_ignores_query_and_fragment
                   "http://x/Default.htm" "http://x" "top?a" "#"
                   (mkParse "http" "x" "/Default.htm" "" "" "")
                   (mkParse "http" "x" "" "" "" "")
                   eq_refl eq_refl eq_refl eq_refl eq_refl eq_refl _)).
  simpl. tauto.
Defined.

End HomepageProofs.

(** ** The inline-handler pattern *)

Module PatternProofs.
Import PyStr PyStrFacts PyRe.

Lemma strip_prefix_app l x : strip_prefix l (l ++ x) = Some x.
Proof.
  induction l as [|c l IH]; [reflexivity|].
  rewrite app_cons. cbn [strip_prefix]. rewrite Ascii.eqb_refl. exact IH.
Qed.

Lemma strip_prefix_Some l s x : strip_prefix l s = Some x -> s = l ++ x.
Proof.
  revert s. induction l as [|c l IH]; intros s; cbn [strip_prefix].
  - intros H. injection H as ->. reflexivity.
  - destruct s as [|d s]; [discriminate|].
    destruct (Ascii.eqb_spec c d) as [->|]; [|discriminate].
    intros H. rewrite app_cons, <- (IH s H). reflexivity.
Qed.

(** A greedy run stops where the class ends, when the rest of the
    pattern matches there. *)
Lemma star_run p k ws rest g r :
  all p ws = true -> k rest g = Some r ->
  (forall c rest', rest = String c rest' -> p c = false) ->
  star p k (ws ++ rest) g = Some r.
Proof.
  intros Hws Hk Hstop. induction ws as [|c ws IH].
  - rewrite app_nil. destruct rest as [|d rest']; simpl; [exact Hk|].
    rewrite (Hstop d rest' eq_refl). exact Hk.
  - simpl in Hws. apply andb_true_iff in Hws. destruct Hws as [Hc Hws].
    rewrite app_cons. simpl. rewrite Hc, (IH Hws). reflexivity.
Qed.

Lemma plus_run p k t d rest g r :
  t <> EmptyString -> all p t = true -> p d = false ->
  k (String d rest) (g ++ t) = Some r ->
  plus p k (t ++ String d rest) g = Some r.
Proof.
  revert g. induction t as [|c t IH]; intros g Hne Ht Hd Hk;
    [congruence|].
  simpl in Ht. apply andb_true_iff in Ht. destruct Ht as [Hc Ht].
  rewrite app_cons. simpl. rewrite Hc.
  destruct t as [|c' t].
  - rewrite app_nil. simpl. rewrite Hd. exact Hk.
  - assert (E : plus p k (String c' t ++ String d rest)
                  (g ++ String c "") = Some r).
    { apply IH; [discriminate | exact Ht | exact Hd |].
      rewrite append_assoc_s. exact Hk. }
    rewrite E. reflexivity.
Qed.

Lemma findall_from_skip items s :
  match_here items "" "" = None ->
  findall_from items s (String.length s) = [].
Proof.
  intros H. induction s as [|c s IH]; simpl; [rewrite H; reflexivity|].
  exact IH.
Qed.

(** A match of a pattern that begins with literal text begins with that
    text: no other spelling of it is accepted. *)
Lemma findall_from_literal l k s skip :
  findall_from (Lit l :: k) s skip <> [] ->
  exists a b, s = a ++ l ++ b.
Proof.
  revert skip. induction s as [|c s IH]; intros skip.
  - simpl. destruct skip; [|congruence].
    destruct (strip_prefix l "") as [x|] eqn:E; [|congruence].
    intros _. exists "", x. apply (strip_prefix_Some _ _ _ E).
  - cbn [findall_from]. destruct skip as [|n].
    + cbn [match_here].
      destruct (strip_prefix l (String c s)) as [x|] eqn:E.
      * intros _. exists "", x. apply (strip_prefix_Some _ _ _ E).
      * intros H. destruct (IH 0%nat H) as (a & b & ->).
        exists (String c a), b. reflexivity.
    + intros H. destruct (IH n H) as (a & b & ->).
      exists (String c a), b. reflexivity.
Qed.

Lemma quote_not_space c : quote c = true -> is_space c = false.
Proof.
  unfold quote. intros H. apply orb_true_iff in H.
  destruct H as [H|H]; apply Ascii.eqb_eq in H; subst; reflexivity.
Qed.

Lemma all_negb_quote t :
  any quote t = false -> all (fun c => negb (quote c)) t = true.
Proof.
  induction t as [|c t IH]; simpl; [reflexivity|].
  intros H. apply orb_false_elim in H. destruct H as [Hc Ht].
  rewrite Hc, (IH Ht). reflexivity.
Qed.

Lemma js_navigation_match ws1 ws2 t q1 q2 rest :
  all is_space ws1 = true -> all is_space ws2 = true ->
  quote q1 = true -> quote q2 = true ->
  t <> "" -> any quote t = false ->
  match_here js_navigation
    ("window.location.href" ++ ws1 ++ "=" ++ ws2
     ++ String q1 (t ++ String q2 rest)) ""
  = Some (t, rest).
Proof.
  intros H1 H2 Hq1 Hq2 Hne Ht.
  unfold js_navigation. cbn [match_here].
  rewrite strip_prefix_app.
  apply star_run; [exact H1| |intros c r E; injection E as <- _;
                              reflexivity].
  rewrite strip_prefix_app.
  apply star_run; [exact H2| |intros c r E; injection E as <- _;
                              apply quote_not_space; exact Hq1].
  rewrite Hq1.
  apply plus_run; [exact Hne | apply all_negb_quote; exact Ht
                  | rewrite Hq2; reflexivity |].
  rewrite Hq2. reflexivity.
Qed.

(** C8, as the code has it.  A handler that consists of the literal
    window.location.href, optional white space, an equals sign, optional
    white space and a non-empty target between two quote characters,
    each single or double, yields that target.  The literal is matched
    in its exact spelling only: a handler in which that spelling does
    not occur yields no target. *)
Theorem js_navigation_exact_literal_either_quote
    (ws1 ws2 t : string) (q1 q2 : ascii) :
  all is_space ws1 = true -> all is_space ws2 = true ->
  quote q1 = true -> quote q2 = true ->
  t <> "" -> any quote t = false ->
  findall js_navigation
    ("window.location.href" ++ ws1 ++ "=" ++ ws2
     ++ String q1 (t ++ String q2 "")) = [t]
  /\ forall s,
       (forall a b, s <> a ++ "window.location.href" ++ b) ->
       findall js_navigation s = [].
Proof.
  intros H1 H2 Hq1 Hq2 Hne Ht. split.
  - unfold findall.
    pose proof (js_navigation_match ws1 ws2 t q1 q2 "" H1 H2 Hq1 Hq2
                  Hne Ht) as Hm.
    remember ("window.location.href" ++ ws1 ++ "=" ++ ws2
              ++ String q1 (t ++ String q2 "")) as s eqn:Es.
    destruct s as [|c s]; [discriminate|].
    cbn [findall_from]. rewrite Hm. f_equal.
    replace (String.length (String c s) - String.length "" - 1)%nat
      with (String.length s) by (simpl; lia).
    apply findall_from_skip. reflexivity.
  - intros s Hs. unfold findall, js_navigation.
    destruct (findall_from _ s 0) eqn:E; [reflexivity|].
    exfalso.
    assert (Hne' : findall_from js_navigation s 0 <> [])
      by (unfold js_navigation; rewrite E; discriminate).
    destruct (findall_from_literal _ _ s 0%nat Hne') as (a & b & Hab).
    exact (Hs a b Hab).
Qed.

Lemma js_navigation_exact_literal_either_quote_witness :
  findall js_navigation
    ("window.location.href" ++ " " ++ "=" ++ ""
     ++ String "034" ("b.html" ++ String "039" "")) = ["b.html"].
Proof.
  refine (proj1 (js_navigation_exact_literal_either_quote
                   " " "" "b.html" "034" "039"
                   eq_refl eq_refl eq_refl eq_refl _ eq_refl)).
  discriminate.
Defined.

(** C8 as stated does not hold: the literal is not matched
    case-insensitively.  A handler that spells it Window.Location.Href,
    which differs from the literal in case only, yields no target, while
    the same handler in the exact spelling yields one. *)
Lemma js_navigation_not_case_insensitive :
  lower "Window.Location.Href" = "window.location.href"
  /\ findall js_navigation "Window.Location.Href='a.html'" = []
  /\ findall js_navigation "window.location.href='a.html'" = ["a.html"].
Proof. repeat split; reflexivity. Qed.

End PatternProofs.

(** ** The crawl *)

Module CrawlerProofs.
Import PyStr UrlParse UrlJoin PyRe Crawler.
Import (notations) Spec.
Local Open Scope list_scope.

Abbreviation netloc_of := Spec.netloc_of.
Abbreviation scheme_of := Spec.scheme_of.

Section Web.
Context (fetch : nat -> string -> fetch_result).
Context (base_url : string) (max_depth : Z).

Abbreviation step := (step fetch base_url max_depth).
Abbreviation run := (run fetch base_url max_depth).
Abbreviation after := (after fetch base_url max_depth).
Abbreviation fresh := (Spec.fresh base_url).
Abbreviation crawl_inv := (Spec.crawl_inv base_url max_depth).
Abbreviation shallow := (Spec.shallow max_depth).
Abbreviation halts := (Spec.halts fetch base_url max_depth).

Lemma fresh_nil depth : fresh depth [].
Proof. intros u d H. inversion H. Qed.

Lemma fresh_app depth a b :
  fresh depth a -> fresh depth b -> fresh depth (a ++ b).
Proof.
  intros Ha Hb u d H. apply elem_of_app in H.
  destruct H; [apply Ha | apply Hb]; assumption.
Qed.

Lemma follow_appends url depth seen target queue queue' :
  follow base_url url depth seen target queue = Some queue' ->
  exists new, queue' = queue ++ new /\ fresh depth new.
Proof.
  unfold follow. intros H.
  destruct (urljoin url target) as [full|]; [|discriminate].
  destruct (urlparse full) as [p|] eqn:Ep; [|discriminate].
  destruct (urlparse base_url) as [b|] eqn:Eb; [|discriminate].
  destruct (String.eqb_spec (netloc p) (netloc b)) as [En|En].
  - destruct (bool_decide (full ∈ seen)); injection H as <-.
    + exists []. split; [by rewrite app_nil_r | apply fresh_nil].
    + exists [(full, (depth + 1)%Z)]. split; [reflexivity|].
      intros u d Hin. apply list_elem_of_singleton in Hin.
      injection Hin as -> ->. split; [reflexivity|].
      unfold netloc_of. rewrite Ep, Eb. simpl. by rewrite En.
  - injection H as <-. exists [].
    split; [by rewrite app_nil_r | apply fresh_nil].
Qed.

Lemma follow_all_appends url depth seen targets queue :
  exists new,
    fst (follow_all base_url url depth seen targets queue)
    = queue ++ new /\ fresh depth new.
Proof.
  revert queue. induction targets as [|t ts IH]; intros queue; simpl.
  - exists []. split; [by rewrite app_nil_r | apply fresh_nil].
  - destruct (follow base_url url depth seen t queue) as [q'|] eqn:E.
    + destruct (follow_appends _ _ _ _ _ _ E) as (n1 & -> & H1).
      destruct (IH (queue ++ n1)) as (n2 & -> & H2).
      exists (n1 ++ n2). split; [by rewrite app_assoc|].
      by apply fresh_app.
    + exists []. split; [by rewrite app_nil_r | apply fresh_nil].
Qed.

Lemma extract_links_appends url depth seen pg queue :
  exists new,
    extract_links base_url url depth seen pg queue = queue ++ new
    /\ fresh depth new.
Proof.
  unfold extract_links.
  destruct (follow_all_appends url depth seen (hrefs pg) queue)
    as (n1 & E1 & H1).
  destruct (follow_all base_url url depth seen (hrefs pg) queue)
    as [q1 ok]. simpl in E1. subst q1.
  destruct ok; [|by exists n1].
  destruct (follow_all_appends url depth seen
              (flat_map (findall js_navigation) (onclicks pg))
              (queue ++ n1)) as (n2 & -> & H2).
  exists (n1 ++ n2). split; [by rewrite app_assoc|].
  by apply fresh_app.
Qed.

(** What one iteration does to the state: it takes the head of the
    queue, and either skips it, or requests it and may append links
    found one level deeper. *)
Lemma step_cases st st' :
  step st = Some st' ->
  exists url depth rest,
    to_visit st = (url, depth) :: rest
    /\ ((to_visit st' = rest
         /\ discovered_urls st' = discovered_urls st
         /\ visited st' = visited st
         /\ requests st' = requests st
         /\ (url ∈ visited st \/ (max_depth < depth)%Z))
        \/ ((url ∉ visited st) /\ (depth <= max_depth)%Z
            /\ visited st' = {[url]} ∪ visited st
            /\ requests st' = (url, depth) :: requests st
            /\ (discovered_urls st' = discovered_urls st
                \/ discovered_urls st' = {[url]} ∪ discovered_urls st)
            /\ (to_visit st' = rest
                \/ ((depth < max_depth)%Z
                    /\ exists new, to_visit st' = rest ++ new
                                   /\ fresh depth new)))).
Proof.
  unfold Crawler.step. destruct (to_visit st) as [|[url depth] rest];
    [discriminate|].
  intros H. exists url, depth, rest. split; [reflexivity|].
  destruct (bool_decide (url ∈ visited st)) eqn:Ev; simpl in H.
  { injection H as <-. left. simpl. apply bool_decide_eq_true in Ev.
    auto 10. }
  apply bool_decide_eq_false in Ev.
  destruct (Z.ltb_spec max_depth depth) as [Hd|Hd].
  { injection H as <-. left. simpl. auto 10. }
  right. split; [exact Ev|]. split; [exact Hd|].
  destruct (fetch (length (requests st)) url) as [|code soup].
  { injection H as <-. simpl. auto 10. }
  destruct (code =? 200)%Z; [|injection H as <-; simpl; auto 10].
  destruct (Z.ltb_spec depth max_depth) as [Hlt|Hge];
    [|injection H as <-; simpl; auto 10].
  destruct soup as [pg|]; [|injection H as <-; simpl; auto 10].
  injection H as <-. simpl.
  destruct (extract_links_appends url depth ({[url]} ∪ visited st) pg
              rest) as (new & E & Hnew).
  repeat split; auto. right. split; [exact Hlt|]. exists new. auto.
Qed.

Lemma crawl_inv_start : crawl_inv (start base_url).
Proof.
  split; simpl.
  - constructor.
  - intros u d H. inversion H.
  - intros u d H. inversion H.
  - intros u d H. apply list_elem_of_singleton in H.
    injection H as -> _. reflexivity.
  - intros u H. by apply not_elem_of_empty in H.
Qed.

Lemma crawl_inv_step st st' :
  crawl_inv st -> step st = Some st' -> crawl_inv st'.
Proof.
  intros [Honce Hseen Hdepth Hqueue Hfound] Hstep.
  destruct (step_cases st st' Hstep) as (url & depth & rest & Eq & H).
  assert (Hrest : forall u d, (u, d) ∈ rest ->
                              netloc_of u = netloc_of base_url).
  { intros u d Hin. apply (Hqueue u d). rewrite Eq. by right. }
  assert (Hurl : netloc_of url = netloc_of base_url).
  { apply (Hqueue url depth). rewrite Eq. by left. }
  destruct H as [(Eq' & Ed & Ev & Er & _)
                |(Hnew & Hd & Ev & Er & Ed & Eq')].
  - split; rewrite ?Eq', ?Ed, ?Ev, ?Er; auto.
  - split; rewrite ?Ev, ?Er.
    + simpl. constructor; [|exact Honce].
      intros Hin. apply list_elem_of_fmap in Hin.
      destruct Hin as ([u d] & -> & Hin). simpl in Hnew.
      apply Hnew. by apply (Hseen u d).
    + intros u d Hin. apply elem_of_cons in Hin.
      destruct Hin as [E|Hin].
      { injection E as -> _. by apply elem_of_union_l, elem_of_singleton. }
      apply elem_of_union_r. by apply (Hseen u d).
    + intros u d Hin. apply elem_of_cons in Hin.
      destruct Hin as [E|Hin]; [injection E as _ ->; exact Hd|].
      by apply (Hdepth u d).
    + destruct Eq' as [-> | (_ & new & -> & Hf)]; [exact Hrest|].
      intros u d Hin. apply elem_of_app in Hin.
      destruct Hin as [Hin|Hin]; [by apply (Hrest u d)|].
      by apply (Hf u d).
    + destruct Ed as [-> | ->]; [exact Hfound|].
      intros u Hin. apply elem_of_union in Hin.
      destruct Hin as [Hin|Hin]; [|by apply Hfound].
      apply elem_of_singleton in Hin. by subst.
Qed.

Lemma crawl_inv_after n st st' :
  crawl_inv st -> after n st = Some st' -> crawl_inv st'.
Proof.
  revert st. induction n as [|n IH]; intros st Hinv; simpl.
  - intros H. injection H as <-. exact Hinv.
  - destruct (step st) as [st1|] eqn:E; [|discriminate].
    apply IH. by apply (crawl_inv_step st).
Qed.

Lemma crawl_inv_run fuel st st' :
  crawl_inv st -> run fuel st = Some st' -> crawl_inv st'.
Proof.
  revert st. induction fuel as [|fuel IH]; intros st Hinv; simpl.
  - destruct (step st); [discriminate|].
    intros H. injection H as <-. exact Hinv.
  - destruct (step st) as [st1|] eqn:E.
    + apply IH. by apply (crawl_inv_step st).
    + intros H. injection H as <-. exact Hinv.
Qed.

(** *** Termination

    Every entry of the queue has a depth, and a page only appends entries
    one level deeper, and only below [max_depth]: the queue drains. *)
Lemma halts_step st st' : step st = Some st' -> halts st' -> halts st.
Proof.
  intros E (fuel & r & H). exists (S fuel), r. simpl. rewrite E. exact H.
Qed.

Lemma step_total st :
  to_visit st <> [] -> exists st', step st = Some st'.
Proof.
  unfold Crawler.step. destruct (to_visit st) as [|[url depth] rest];
    [congruence|]. intros _.
  destruct (bool_decide (url ∈ visited st) || (max_depth <? depth)%Z);
    [eauto|].
  destruct (fetch (length (requests st)) url) as [|code soup]; [eauto|].
  destruct (code =? 200)%Z; [|eauto].
  destruct (depth <? max_depth)%Z; [|eauto].
  destruct soup; eauto.
Qed.

Lemma halts_split k :
  (forall st, shallow k (to_visit st) -> halts st) ->
  forall a b found seen log,
    shallow (S k) a -> shallow k b ->
    halts (mkCrawl found (a ++ b) seen log).
Proof.
  intros Hk a. induction a as [|[url depth] a IH];
    intros b found seen log Ha Hb.
  - apply Hk. exact Hb.
  - set (st := mkCrawl found (((url, depth) :: a) ++ b) seen log).
    destruct (step_total st) as [st' E]; [discriminate|].
    apply (halts_step st st' E).
    destruct (step_cases st st' E) as (u' & d' & rest & Eq & H).
    simpl in Eq. injection Eq as <- <- <-.
    assert (Ha' : shallow (S k) a).
    { intros u d Hin. apply (Ha u d). by right. }
    destruct st' as [found' queue' seen' log']. simpl in H.
    destruct H as [(-> & _) | (_ & _ & _ & _ & _ & Hq)].
    + by apply IH.
    + destruct Hq as [-> | (Hlt & new & -> & Hnew)]; [by apply IH|].
      rewrite <- app_assoc. apply IH; [exact Ha'|].
      intros u d Hin. apply elem_of_app in Hin.
      destruct Hin as [Hin|Hin]; [by apply (Hb u d)|].
      destruct (Hnew u d Hin) as [-> _].
      assert (max_depth - depth < Z.of_nat (S k))%Z
        by (apply (Ha url depth); by left).
      lia.
Qed.

Lemma halts_deep st : shallow 0 (to_visit st) -> halts st.
Proof.
  remember (to_visit st) as queue eqn:Eq. revert st Eq.
  induction queue as [|[url depth] queue IH]; intros st Eq Hq.
  - exists 0%nat, st. simpl. unfold Crawler.step. by rewrite <- Eq.
  - destruct (step_total st) as [st' E]; [by rewrite <- Eq|].
    apply (halts_step st st' E).
    destruct (step_cases st st' E) as (u' & d' & rest & Eq' & H).
    rewrite <- Eq in Eq'. injection Eq' as <- <- <-.
    assert (max_depth - depth < Z.of_nat 0)%Z
      by (apply (Hq url depth); by left).
    destruct H as [(E' & _) | (_ & Hd & _)]; [|lia].
    apply IH; [by rewrite E'|].
    intros u d Hin. apply (Hq u d). by right.
Qed.

Lemma halts_shallow k st : shallow k (to_visit st) -> halts st.
Proof.
  revert st. induction k as [|k IH]; intros st Hst.
  - by apply halts_deep.
  - destruct st as [found queue seen log]. simpl in Hst.
    rewrite <- (app_nil_r queue).
    apply (halts_split k IH); [exact Hst|].
    intros u d Hin. inversion Hin.
Qed.

(** The crawl ends, and [discover_urls] returns a list. *)
Lemma discover_urls_terminates :
  exists fuel urls, discover_urls fetch base_url max_depth fuel = Some urls.
Proof.
  destruct (halts_shallow (Z.to_nat (max_depth + 1)) (start base_url))
    as (fuel & st & H).
  - intros u d Hin. apply list_elem_of_singleton in Hin.
    injection Hin as _ ->. lia.
  - exists fuel, (elements (discovered_urls st)).
    unfold discover_urls. by rewrite H.
Qed.

(** C3.  At every point of a run of [discover_urls], the requests made so
    far are for pairwise different urls, each of them was put in the
    visited set when it was requested, and none was requested at a depth
    above [max_depth]. *)
Theorem discover_urls_requests_once_within_depth (n : nat) (st : crawl) :
  after n (start base_url) = Some st ->
  NoDup (requests st).*1
  /\ (forall u d, (u, d) ∈ requests st -> u ∈ visited st)
  /\ (forall u d, (u, d) ∈ requests st -> (d <= max_depth)%Z).
Proof.
  intros H.
  destruct (crawl_inv_after n _ st crawl_inv_start H) as [H1 H2 H3 _ _].
  auto.
Qed.

(** C1, as the code has it.  Every url that [discover_urls] returns has
    the netloc of the seed url, and so has every entry of the queue at
    every point of the run: a link with another netloc is never enqueued.
    The scheme is not compared. *)
Theorem discover_urls_same_netloc (fuel : nat) (urls : list string) :
  discover_urls fetch base_url max_depth fuel = Some urls ->
  (forall u, u ∈ urls -> netloc_of u = netloc_of base_url)
  /\ (forall n st u d,
        after n (start base_url) = Some st -> (u, d) ∈ to_visit st ->
        netloc_of u = netloc_of base_url).
Proof.
  unfold discover_urls. intros H. split.
  - destruct (run fuel (start base_url)) as [st|] eqn:E; [|discriminate].
    injection H as <-. intros u Hu. apply elem_of_elements in Hu.
    destruct (crawl_inv_run fuel _ st crawl_inv_start E) as [_ _ _ _ Hf].
    by apply Hf.
  - intros n st u d Hn Hin.
    destruct (crawl_inv_after n _ st crawl_inv_start Hn) as [_ _ _ Hq _].
    by apply (Hq u d).
Qed.

End Web.

Lemma discover_urls_requests_once_within_depth_witness :
  exists st,
    Crawler.after Examples.mixed_site "http://x/" 1 4 (start "http://x/")
    = Some st
    /\ NoDup (requests st).*1
    /\ (forall u d, (u, d) ∈ requests st -> u ∈ visited st)
    /\ (forall u d, (u, d) ∈ requests st -> (d <= 1)%Z).
Proof.
  destruct (Crawler.after Examples.mixed_site "http://x/" 1 4
              (start "http://x/")) as [st|] eqn:E;
    [|vm_compute in E; discriminate E].
  exists st. split; [reflexivity|].
  exact (discover_urls_requests_once_within_depth
           Examples.mixed_site "http://x/" 1 4 st E).
Defined.

Lemma discover_urls_same_netloc_witness :
  exists urls,
    discover_urls Examples.mixed_site "http://x/" 1 8 = Some urls
    /\ forall u, u ∈ urls -> netloc_of u = netloc_of "http://x/".
Proof.
  destruct (discover_urls Examples.mixed_site "http://x/" 1 8)
    as [urls|] eqn:E; [|vm_compute in E; discriminate E].
  exists urls. split; [reflexivity|].
  exact (proj1 (discover_urls_same_netloc
                  Examples.mixed_site "http://x/" 1 8 urls E)).
Defined.

(** C1 as stated does not hold: a link to the seed's host over another
    scheme is followed and returned.  From http://x/ the crawl of
    [Examples.mixed_site] returns https://x/a, whose scheme is not the
    seed's. *)
Lemma discover_urls_crosses_scheme :
  exists urls,
    discover_urls Examples.mixed_site "http://x/" 1 8 = Some urls
    /\ "https://x/a" ∈ urls
    /\ scheme_of "https://x/a" = Some "https"
    /\ scheme_of "http://x/" = Some "http".
Proof.
  eexists. split; [vm_compute; reflexivity|].
  split; [|split; reflexivity].
  repeat first [apply list_elem_of_here | apply list_elem_of_further].
Qed.

End CrawlerProofs.

(** ** Indexing *)

Module IndexingProofs.
Import Indexing.
Local Open Scope list_scope.

Lemma urls_to_index_elem base_url urls todo :
  urls_to_index base_url urls = Some todo ->
  forall u, u ∈ todo <->
            u ∈ urls /\ is_homepage_url u base_url = Some false.
Proof.
  revert todo. induction urls as [|url rest IH]; intros todo; simpl.
  - intros H. injection H as <-. intros u. split.
    + intros Hin. inversion Hin.
    + intros [Hin _]. inversion Hin.
  - destruct (is_homepage_url url base_url) as [home|] eqn:Eh;
      [|discriminate].
    destruct (urls_to_index base_url rest) as [l|]; [|discriminate].
    intros H. injection H as <-. intros u.
    specialize (IH l eq_refl u). destruct home.
    + rewrite IH, elem_of_cons. split; [tauto|].
      intros [[-> | Hin] Hu]; [congruence | tauto].
    + rewrite !elem_of_cons, IH. split.
      * intros [-> | [Hin Hu]]; tauto.
      * intros [[-> | Hin] Hu]; tauto.
Qed.

Lemma urls_to_index_all_home base_url urls :
  (forall u, u ∈ urls -> is_homepage_url u base_url = Some true) ->
  urls_to_index base_url urls = Some [].
Proof.
  induction urls as [|url rest IH]; intros H; simpl; [reflexivity|].
  rewrite (H url) by (by left).
  rewrite IH; [reflexivity|]. intros u Hu. apply H. by right.
Qed.

Lemma filter_split {A} (f : A -> bool) (l : list A) :
  (length (List.filter f l)
   + length (List.filter (fun x => negb (f x)) l))%nat = length l.
Proof.
  induction l as [|x l IH]; simpl; [reflexivity|].
  destruct (f x); simpl; lia.
Qed.

Section Env.
Context (load_data : string -> load_result).
Context (ingest : string -> list string -> list string * bool).

Abbreviation index_one := (index_one load_data ingest).
Abbreviation index_urls := (index_urls load_data ingest).
Abbreviation indexed := (Spec.indexed load_data ingest).

Lemma index_one_counts stored n failed url :
  (index_one (stored, n, failed) url).1.2
  = (if indexed url then n + 1 else n)%Z
  /\ (index_one (stored, n, failed) url).2
     = if indexed url then failed else failed ++ [url].
Proof.
  unfold Indexing.index_one, Spec.indexed.
  destruct (load_data url) as [|[|doc docs]]; simpl; [auto | auto |].
  destruct (ingest url (doc :: docs)) as [chunks ok]. simpl.
  destruct ok; auto.
Qed.

Lemma index_loop_counts todo acc :
  (fold_left index_one todo acc).1.2
  = (acc.1.2 + Z.of_nat (length (List.filter indexed todo)))%Z
  /\ (fold_left index_one todo acc).2
     = acc.2 ++ List.filter (fun u => negb (indexed u)) todo.
Proof.
  revert acc. induction todo as [|url todo IH]; intros acc; simpl.
  - rewrite app_nil_r. split; [lia | reflexivity].
  - destruct acc as [[stored n] failed].
    destruct (index_one_counts stored n failed url) as [Hn Hf].
    destruct (IH (index_one (stored, n, failed) url)) as [IHn IHf].
    rewrite IHn, IHf, Hn, Hf. simpl.
    destruct (indexed url); simpl; split;
      rewrite <- ?app_assoc; simpl; try reflexivity; lia.
Qed.

(** The shape of the result once some url is left to index *)
Lemma index_urls_some st base_url urls todo :
  urls_to_index base_url urls = Some todo -> todo <> [] ->
  exists st' msg,
    index_urls st base_url urls
    = (st', Returned (mkIndexResult true msg
                        (Z.of_nat (length (List.filter indexed todo)))
                        (Some (Z.of_nat (length todo)))
                        (Some (List.filter (fun u => negb (indexed u))
                                 todo)))).
Proof.
  intros E Hne. unfold Indexing.index_urls. rewrite E.
  destruct todo as [|url todo]; [congruence|].
  destruct (index_loop_counts (url :: todo)
              (default [] (collection st), 0%Z, [])) as [Hn Hf].
  destruct (fold_left index_one (url :: todo) _) as [[stored n] failed].
  simpl in Hn, Hf. subst n failed. eauto.
Qed.

Section Crawl.
Context (fetch : nat -> string -> Crawler.fetch_result).

Abbreviation index_website := (index_website load_data ingest fetch).
Abbreviation discover_urls := (Crawler.discover_urls fetch).

(** C4.  When the crawl has returned and some url is left after the
    homepage variants are excluded, [index_website] returns a dictionary
    with success true; the indexed count is the number of urls that were
    indexed, the total is the number of urls attempted, and the failed
    urls are exactly the urls that were not indexed, in order.  A url whose
    extraction raises or yields no content is appended to the failed urls
    and changes nothing else: the loop goes on with the next url. *)
Theorem index_website_records_failures
    (fuel : nat) (st : service) (base_url : option string)
    (urls todo : list string) :
  discover_urls (default BASE_URL base_url) MAX_DEPTH fuel = Some urls ->
  urls_to_index (default BASE_URL base_url) urls = Some todo ->
  todo <> [] ->
  (exists st' r,
     index_website fuel st base_url = Some (st', Returned r)
     /\ success r = true
     /\ indexed_count r = Z.of_nat (length (List.filter indexed todo))
     /\ total_urls r = Some (Z.of_nat (length todo))
     /\ failed_urls r
        = Some (List.filter (fun u => negb (indexed u)) todo))
  /\ (forall stored n failed url,
        load_data url = LoadError \/ load_data url = Documents [] ->
        index_one (stored, n, failed) url = (stored, n, failed ++ [url])).
Proof.
  intros Hd Ht Hne. split.
  - unfold Indexing.index_website. rewrite Hd.
    destruct (index_urls_some (setup_vector_store (clear st))
                (default BASE_URL base_url) urls todo Ht Hne)
      as (st' & msg & E).
    rewrite E. eexists _, _. split; [reflexivity|]. simpl. auto.
  - intros stored n failed url [E|E]; unfold Indexing.index_one;
      rewrite E; reflexivity.
Qed.

(** C9.  When [index_website] returns a dictionary with success true, the
    indexed count plus the number of failed urls is the total, and every
    failed url is one of the urls attempted: a discovered url that is not
    a homepage variant. *)
Theorem index_website_counts_add_up
    (fuel : nat) (st st' : service) (base_url : option string)
    (r : index_result) :
  index_website fuel st base_url = Some (st', Returned r) ->
  success r = true ->
  exists urls todo failed,
    discover_urls (default BASE_URL base_url) MAX_DEPTH fuel = Some urls
    /\ urls_to_index (default BASE_URL base_url) urls = Some todo
    /\ total_urls r = Some (Z.of_nat (length todo))
    /\ failed_urls r = Some failed
    /\ (indexed_count r + Z.of_nat (length failed))%Z
       = Z.of_nat (length todo)
    /\ (forall u, u ∈ failed ->
          u ∈ todo /\ u ∈ urls
          /\ is_homepage_url u (default BASE_URL base_url) = Some false).
Proof.
  unfold Indexing.index_website. intros H Hs.
  destruct (discover_urls (default BASE_URL base_url) MAX_DEPTH fuel)
    as [urls|]; [|discriminate].
  injection H as H.
  destruct (urls_to_index (default BASE_URL base_url) urls) as [todo|]
    eqn:Et; [|unfold Indexing.index_urls in H; rewrite Et in H;
              discriminate].
  assert (Hne : todo <> []).
  { intros ->. unfold Indexing.index_urls in H. rewrite Et in H.
    injection H as _ <-. discriminate. }
  destruct (index_urls_some (setup_vector_store (clear st))
              (default BASE_URL base_url) urls todo Et Hne)
    as (st1 & msg & E).
  rewrite E in H. injection H as _ <-.
  exists urls, todo, (List.filter (fun u => negb (indexed u)) todo).
  split; [reflexivity|]. split; [exact Et|].
  do 2 (split; [reflexivity|]). split.
  - cbn [indexed_count].
    rewrite <- (filter_split indexed todo). lia.
  - intros u Hu. apply list_elem_of_In, filter_In in Hu.
    destruct Hu as [Hu _]. apply list_elem_of_In in Hu.
    pose proof (proj1 (urls_to_index_elem _ _ _ Et u) Hu). tauto.
Qed.

(** C6.  When the crawl has returned and every discovered url is
    classified as a homepage variant, [index_website] returns a
    dictionary with success false, indexed count 0 and a message that
    says why; it does not raise. *)
Theorem index_website_nothing_to_index
    (fuel : nat) (st : service) (base_url : option string)
    (urls : list string) :
  discover_urls (default BASE_URL base_url) MAX_DEPTH fuel = Some urls ->
  (forall u, u ∈ urls ->
     is_homepage_url u (default BASE_URL base_url) = Some true) ->
  exists st',
    index_website fuel st base_url
    = Some (st', Returned (mkIndexResult false
                             "No URLs to index after excluding homepage"
                             0 None None)).
Proof.
  intros Hd Hall. unfold Indexing.index_website, Indexing.index_urls.
  rewrite Hd, (urls_to_index_all_home _ _ Hall). eauto.
Qed.

End Crawl.
End Env.

Lemma index_website_records_failures_witness :
  exists st' r,
    index_website Examples.flaky_reader Examples.store_all
      Examples.three_page_site 10 (init None) (Some "http://x/")
    = Some (st', Returned r)
    /\ success r = true
    /\ indexed_count r = 2%Z
    /\ total_urls r = Some 3%Z
    /\ failed_urls r = Some ["http://x/b"].
Proof.
  destruct (proj1 (index_website_records_failures
                     Examples.flaky_reader Examples.store_all
                     Examples.three_page_site 10 (init None)
                     (Some "http://x/")
                     ["http://x/c"; "http://x/index.html"; "http://x/a";
                      "http://x/b"; "http://x/"]
                     ["http://x/c"; "http://x/a"; "http://x/b"]
                     ltac:(vm_compute; reflexivity)
                     ltac:(vm_compute; reflexivity)
                     ltac:(discriminate)))
    as (st' & r & E & Hs & Hn & Ht & Hf).
  exists st', r. split; [exact E|]. split; [exact Hs|].
  split; [rewrite Hn; reflexivity|]. split; [exact Ht|].
  rewrite Hf. reflexivity.
Defined.

Lemma index_website_counts_add_up_witness :
  exists st' r,
    index_website Examples.flaky_reader Examples.store_all
      Examples.three_page_site 10 (init None) (Some "http://x/")
    = Some (st', Returned r)
    /\ exists failed,
         failed_urls r = Some failed
         /\ Some (indexed_count r + Z.of_nat (length failed))%Z
            = total_urls r.
Proof.
  destruct (index_website Examples.flaky_reader Examples.store_all
              Examples.three_page_site 10 (init None) (Some "http://x/"))
    as [[st' [r|e]]|] eqn:E;
    [|vm_compute in E; discriminate E|vm_compute in E; discriminate E].
  assert (Hs : success r = true).
  { vm_compute in E. injection E as _ <-. reflexivity. }
  exists st', r. split; [reflexivity|].
  destruct (index_website_counts_add_up
              Examples.flaky_reader Examples.store_all
              Examples.three_page_site 10 (init None) st'
              (Some "http://x/") r E Hs)
    as (urls & todo & failed & _ & _ & Ht & Hf & Hsum & _).
  exists failed. split; [exact Hf|]. rewrite Ht, Hsum. reflexivity.
Defined.

Lemma index_website_nothing_to_index_witness :
  exists st',
    index_website Examples.flaky_reader Examples.store_all
      Examples.landing_site 10 (init None) None
    = Some (st', Returned (mkIndexResult false
                             "No URLs to index after excluding homepage"
                             0 None None)).
Proof.
  refine (index_website_nothing_to_index
            Examples.flaky_reader Examples.store_all
            Examples.landing_site 10 (init None) None
            ["http://localhost:3000/index.html";
             "http://localhost:3000/INDEX.PHP#top";
             "http://localhost:3000/"; "http://localhost:3000"]
            ltac:(vm_compute; reflexivity) _).
  intros u Hu. repeat (apply elem_of_cons in Hu; destruct Hu as [->|Hu];
                       [reflexivity|]).
  inversion Hu.
Defined.

End IndexingProofs.

(** ** Queries *)

Module QueryingProofs.
Import Indexing Querying Spec.
Local Open Scope list_scope.


Lemma insert_desc_perm s l : insert_desc s l ≡ₚ s :: l.
Proof.
  induction l as [|t l IH]; simpl; [reflexivity|].
  destruct (Qle_bool (score t) (score s)); [reflexivity|].
  rewrite IH. apply Permutation_swap.
Qed.

Lemma sort_desc_perm l : sort_desc l ≡ₚ l.
Proof.
  induction l as [|s l IH]; simpl; [reflexivity|].
  rewrite insert_desc_perm, IH. reflexivity.
Qed.







Section Engine.
Context (engine : option (list node) -> string -> reply).

Abbreviation query := (query engine).

Lemma query_returns st question : exists r, query st question = Returned r.
Proof.
  unfold Querying.query. destruct (negb (query_engine st)); [eauto|].
  destruct (engine (collection st) question) as [e|text nodes]; [eauto|].
  destruct (extract nodes); eauto.
Qed.



End Engine.


(** The constructor always builds the query engine, over an empty index
    when nothing is stored: on a constructed service the question goes to
    the engine. *)
Lemma init_has_query_engine stored : query_engine (init stored) = true.
Proof. reflexivity. Qed.

Lemma query_after_init_reaches_engine :
  query Examples.empty_engine (init None) "What is the harbor?"
  = Returned (mkQueryResult true None "Empty Response" []
                (Some "What is the harbor?")).
Proof. reflexivity. Qed.

End QueryingProofs.

(** * Properties of the remaining code *)

(** ** The crawl: fuel, edge cases, what is returned *)

Module CrawlerMore.
Import Crawler SpecMore.
Local Open Scope list_scope.

Section Web.
Context (fetch : nat -> string -> fetch_result).
Context (base_url : string) (max_depth : Z).

Abbreviation step := (Crawler.step fetch base_url max_depth).
Abbreviation run := (Crawler.run fetch base_url max_depth).
Abbreviation discover_urls := (Crawler.discover_urls fetch base_url max_depth).

Lemma run_unfold fuel st :
  run fuel st
  = match step st with
    | None => Some st
    | Some st' => match fuel with O => None | S fuel' => run fuel' st' end
    end.
Proof. destruct fuel; reflexivity. Qed.

Lemma unseen (u : string) (seen : gset string) :
  seen = ∅ -> bool_decide (u ∈ seen) = false.
Proof. intros ->. apply bool_decide_eq_false, not_elem_of_empty. Qed.

Lemma run_more fuel st r : run fuel st = Some r -> run (S fuel) st = Some r.
Proof.
  revert st. induction fuel as [|fuel IH]; intros st.
  - rewrite !run_unfold. destruct (step st) as [st'|]; [discriminate|].
    auto.
  - rewrite (run_unfold (S fuel)), (run_unfold (S (S fuel))).
    destruct (step st) as [st'|]; [apply IH | auto].
Qed.

Lemma run_le fuel fuel' st r :
  (fuel <= fuel')%nat -> run fuel st = Some r -> run fuel' st = Some r.
Proof.
  intros Hle H. induction Hle as [|m Hle IH]; [exact H|].
  apply run_more. exact IH.
Qed.

(** X1.  [discover_urls] returns for every site, seed and depth: from
    some number of iterations on the loop has ended, always with the same
    list, and no run that ends returns another one. *)
Theorem discover_urls_total :
  exists fuel0 urls,
    (forall fuel, (fuel0 <= fuel)%nat -> discover_urls fuel = Some urls)
    /\ (forall fuel urls', discover_urls fuel = Some urls' -> urls' = urls).
Proof.
  destruct (CrawlerProofs.halts_shallow fetch base_url max_depth
              (Z.to_nat (max_depth + 1)) (start base_url))
    as (fuel0 & st & H).
  { intros u d Hin. apply list_elem_of_singleton in Hin.
    injection Hin as _ ->. lia. }
  exists fuel0, (elements (discovered_urls st)). split.
  - intros fuel Hle. unfold Crawler.discover_urls.
    by rewrite (run_le fuel0 fuel _ st Hle H).
  - intros fuel urls'. unfold Crawler.discover_urls.
    destruct (run fuel (start base_url)) as [st'|] eqn:E; [|discriminate].
    intros Hu. injection Hu as <-.
    pose proof (run_le fuel (max fuel fuel0) _ st' (Nat.le_max_l _ _) E).
    pose proof (run_le fuel0 (max fuel fuel0) _ st (Nat.le_max_r _ _) H).
    congruence.
Qed.

(** X2.  With a negative depth nothing is requested and the empty list is
    returned. *)
Theorem discover_urls_negative_depth (fuel : nat) :
  (max_depth < 0)%Z ->
  discover_urls (S fuel) = Some []
  /\ exists st, run (S fuel) (start base_url) = Some st
                /\ requests st = [].
Proof.
  intros Hd. unfold Crawler.discover_urls.
  assert (E : run (S fuel) (start base_url)
              = Some (mkCrawl ∅ [] ∅ [])).
  { rewrite run_unfold. unfold Crawler.step. simpl.
    destruct (Z.ltb_spec max_depth 0) as [_|Hge]; [|lia].
    rewrite orb_true_r. rewrite run_unfold. reflexivity. }
  rewrite E. simpl. rewrite elements_empty. eauto.
Qed.

(** X3.  A seed that is not answered with status 200 (an exception, or
    any other status) gives the empty list, whatever the depth. *)
Theorem discover_urls_seed_not_answered (fuel : nat) :
  is_200 (fetch 0 base_url) = false ->
  discover_urls (S fuel) = Some [].
Proof.
  intros Hf. unfold Crawler.discover_urls.
  assert (E : exists seen log,
             run (S fuel) (start base_url) = Some (mkCrawl ∅ [] seen log)).
  { rewrite run_unfold. unfold Crawler.step. simpl.
    destruct (bool_decide (base_url ∈ (∅ : gset string))
              || (max_depth <? 0)%Z).
    - rewrite run_unfold. simpl. eauto.
    - destruct (fetch 0%nat base_url) as [|code soup].
      + rewrite run_unfold. simpl. eauto.
      + simpl in Hf. rewrite Hf. rewrite run_unfold. simpl. eauto. }
  destruct E as (seen & log & ->). simpl. by rewrite elements_empty.
Qed.

(** X4.  With depth 0 only the seed is requested, its links are not
    followed, and the result is the seed alone when it is answered with
    status 200. *)
Theorem discover_urls_depth_zero (fuel : nat) :
  max_depth = 0%Z ->
  discover_urls (S fuel)
  = Some (if is_200 (fetch 0 base_url) then [base_url] else [])
  /\ exists st, run (S fuel) (start base_url) = Some st
                /\ requests st = [(base_url, 0%Z)].
Proof.
  intros Hd. unfold Crawler.discover_urls.
  rewrite run_unfold. unfold Crawler.step, start.
  cbn [to_visit visited requests discovered_urls length].
  rewrite (unseen base_url ∅ eq_refl).
  destruct (Z.ltb_spec max_depth 0) as [Hlt|_]; [lia|].
  destruct (Z.ltb_spec 0 max_depth) as [Hlt|_]; [lia|].
  cbn [orb].
  destruct (fetch 0%nat base_url) as [|code soup]; cbn [is_200].
  - rewrite run_unfold. simpl. rewrite elements_empty. eauto.
  - destruct (code =? 200)%Z.
    + rewrite run_unfold. simpl.
      rewrite (right_id_L ∅ (∪)), elements_singleton. eauto.
    + rewrite run_unfold. simpl. rewrite elements_empty. eauto.
Qed.

(** What an iteration does to the log and to the discovered set *)
Lemma step_found st st' :
  step st = Some st' ->
  (requests st' = requests st
   /\ discovered_urls st' = discovered_urls st)
  \/ exists url depth,
       requests st' = (url, depth) :: requests st
       /\ discovered_urls st'
          = if is_200 (fetch (length (requests st)) url)
            then {[url]} ∪ discovered_urls st
            else discovered_urls st.
Proof.
  unfold Crawler.step. destruct (to_visit st) as [|[url depth] rest];
    [discriminate|].
  destruct (bool_decide (url ∈ visited st) || (max_depth <? depth)%Z).
  { intros H. injection H as <-. left. auto. }
  intros H. right. exists url, depth.
  destruct (fetch (length (requests st)) url) as [|code soup]; simpl.
  { injection H as <-. auto. }
  destruct (code =? 200)%Z; [|injection H as <-; auto].
  destruct (depth <? max_depth)%Z; [|injection H as <-; auto].
  destruct soup; injection H as <-; auto.
Qed.

Abbreviation found_inv := (SpecMore.found_inv fetch).

Lemma found_inv_start : found_inv (start base_url).
Proof.
  intros u. split.
  - intros H. by apply not_elem_of_empty in H.
  - intros (i & d & H & _). destruct i; discriminate H.
Qed.

Lemma found_inv_step st st' :
  found_inv st -> step st = Some st' -> found_inv st'.
Proof.
  intros Hinv Hstep u.
  destruct (step_found st st' Hstep) as [[-> ->] | (url & depth & -> & ->)];
    [apply Hinv|].
  unfold answered. cbn [rev]. split.
  - intros Hu.
    assert (Hcase : (u = url
                     /\ is_200 (fetch (length (requests st)) url) = true)
                    \/ u ∈ discovered_urls st).
    { destruct (is_200 (fetch (length (requests st)) url)); [|auto].
      apply elem_of_union in Hu. destruct Hu as [Hu|Hu]; [|auto].
      apply elem_of_singleton in Hu. auto. }
    destruct Hcase as [[-> H200] | Hold].
    + exists (length (requests st)), depth. split; [|exact H200].
      rewrite <- (length_rev (requests st)).
      apply list_lookup_middle. reflexivity.
    + destruct (proj1 (Hinv u) Hold) as (i & d & Hi & H200).
      exists i, d. split; [|exact H200].
      apply lookup_app_l_Some. exact Hi.
  - intros (i & d & Hi & H200).
    apply lookup_app_Some in Hi. destruct Hi as [Hi | [Hle Hi]].
    + assert (Hold : u ∈ discovered_urls st)
        by (apply Hinv; exists i, d; auto).
      destruct (is_200 (fetch (length (requests st)) url));
        [by apply elem_of_union_r | exact Hold].
    + rewrite length_rev in Hle, Hi.
      destruct (i - length (requests st))%nat as [|k] eqn:Ek;
        [|destruct k; discriminate Hi].
      injection Hi as <- <-.
      assert (i = length (requests st)) as -> by lia.
      rewrite H200. by apply elem_of_union_l, elem_of_singleton.
Qed.

Lemma found_inv_run fuel st st' :
  found_inv st -> run fuel st = Some st' -> found_inv st'.
Proof.
  revert st. induction fuel as [|fuel IH]; intros st Hinv;
    rewrite run_unfold.
  - destruct (step st); [discriminate|].
    intros H. injection H as <-. exact Hinv.
  - destruct (step st) as [st1|] eqn:E.
    + apply IH. by apply (found_inv_step st).
    + intros H. injection H as <-. exact Hinv.
Qed.

(** X5.  The list [discover_urls] returns has no duplicates and holds
    exactly the urls that were requested during the run and answered with
    status 200. *)
Theorem discover_urls_returns_answered (fuel : nat) (urls : list string) :
  discover_urls fuel = Some urls ->
  NoDup urls
  /\ exists st,
       run fuel (start base_url) = Some st
       /\ forall u, u ∈ urls <-> answered fetch (requests st) u.
Proof.
  unfold Crawler.discover_urls.
  destruct (run fuel (start base_url)) as [st|] eqn:E; [|discriminate].
  intros H. injection H as <-. split; [apply NoDup_elements|].
  exists st. split; [reflexivity|]. intros u.
  rewrite elem_of_elements.
  apply (found_inv_run fuel _ st found_inv_start E).
Qed.

End Web.

Lemma discover_urls_negative_depth_witness :
  Crawler.discover_urls Examples.mixed_site "http://x/" (-1) 1 = Some [].
Proof.
  exact (proj1 (discover_urls_negative_depth Examples.mixed_site
                  "http://x/" (-1) 0 eq_refl)).
Defined.

Lemma discover_urls_seed_not_answered_witness :
  Crawler.discover_urls Examples.mixed_site "http://x/c" 3 1 = Some [].
Proof.
  exact (discover_urls_seed_not_answered Examples.mixed_site
           "http://x/c" 3 0 eq_refl).
Defined.

Lemma discover_urls_depth_zero_witness :
  Crawler.discover_urls Examples.mixed_site "http://x/" 0 1
  = Some ["http://x/"].
Proof.
  exact (proj1 (discover_urls_depth_zero Examples.mixed_site
                  "http://x/" 0 0 eq_refl)).
Defined.

Lemma discover_urls_returns_answered_witness :
  exists urls,
    Crawler.discover_urls Examples.mixed_site "http://x/" 1 8 = Some urls
    /\ NoDup urls.
Proof.
  destruct (Crawler.discover_urls Examples.mixed_site "http://x/" 1 8)
    as [urls|] eqn:E; [|vm_compute in E; discriminate E].
  exists urls. split; [reflexivity|].
  exact (proj1 (discover_urls_returns_answered Examples.mixed_site
                  "http://x/" 1 8 urls E)).
Defined.

End CrawlerMore.

(** ** Indexing: what is stored, and what a run leaves behind *)

Module IndexingMore.
Import Indexing SpecMore.
Local Open Scope list_scope.

Lemma setup_clear st :
  setup_vector_store (clear st) = mkService (Some []) true true true.
Proof. destruct st as [[stored|] v i q]; reflexivity. Qed.

Section Env.
Context (load_data : string -> load_result).
Context (ingest : string -> list string -> list string * bool).

Abbreviation index_one := (Indexing.index_one load_data ingest).
Abbreviation index_urls := (Indexing.index_urls load_data ingest).
Abbreviation stored_for := (SpecMore.stored_for load_data ingest).

Lemma index_one_stored stored n failed url :
  (index_one (stored, n, failed) url).1.1 = stored ++ stored_for url.
Proof.
  unfold Indexing.index_one, SpecMore.stored_for.
  destruct (load_data url) as [|[|doc docs]]; simpl;
    [by rewrite app_nil_r | by rewrite app_nil_r |].
  destruct (ingest url (doc :: docs)) as [chunks ok]. simpl.
  destruct ok; reflexivity.
Qed.

Lemma index_loop_stored todo acc :
  (fold_left index_one todo acc).1.1
  = acc.1.1 ++ flat_map stored_for todo.
Proof.
  revert acc. induction todo as [|url todo IH]; intros acc; simpl.
  - by rewrite app_nil_r.
  - destruct acc as [[stored n] failed].
    rewrite IH, index_one_stored. by rewrite <- app_assoc.
Qed.

(** The service that [index_urls] leaves *)
Lemma index_urls_state st base_url urls :
  (index_urls st base_url urls).1
  = match urls_to_index base_url urls with
    | Some (url :: todo) =>
        mkService
          (Some (default [] (collection st)
                 ++ flat_map stored_for (url :: todo)))
          (vector_store st) (index st) true
    | _ => st
    end.
Proof.
  unfold Indexing.index_urls.
  destruct (urls_to_index base_url urls) as [[|url todo]|];
    [reflexivity| |reflexivity].
  pose proof (index_loop_stored (url :: todo)
                (default [] (collection st), 0%Z, [])) as H.
  destruct (fold_left index_one (url :: todo) _) as [[stored n] failed].
  simpl in H. subst stored. reflexivity.
Qed.



Section Crawl.
Context (fetch : nat -> string -> Crawler.fetch_result).

Abbreviation index_website :=
  (Indexing.index_website load_data ingest fetch).
Abbreviation discover_urls := (Crawler.discover_urls fetch).


(** X7.  Whenever [index_website] returns or raises, the service is set
    up: the collection exists and the query engine is built, so a query
    then goes to the engine and the statistics report success with the
    number of stored chunks. *)
Theorem index_website_leaves_service_ready
    (fuel : nat) (st st' : service) (base_url : option string)
    (o : outcome index_result) :
  index_website fuel st base_url = Some (st', o) ->
  query_engine st' = true
  /\ exists stored,
       collection st' = Some stored
       /\ forall not_found,
            Stats.get_index_stats not_found st'
            = Stats.mkStats true None (Z.of_nat (length stored))
                (Some "harbor_website")
                (0 <? Z.of_nat (length stored))%Z.
Proof.
  unfold Indexing.index_website. rewrite setup_clear.
  destruct (discover_urls (default BASE_URL base_url) MAX_DEPTH fuel)
    as [urls|]; [|discriminate].
  intros H. injection H as H.
  pose proof (f_equal fst H) as Hst. simpl in Hst.
  rewrite index_urls_state in Hst. subst st'.
  destruct (urls_to_index (default BASE_URL base_url) urls)
    as [[|url todo]|]; simpl; (split; [reflexivity|]);
    eexists; (split; [reflexivity|]); intros nf;
    unfold Stats.get_index_stats; reflexivity.
Qed.



End Crawl.
End Env.

Lemma index_website_leaves_service_ready_witness :
  exists st' o,
    Indexing.index_website Examples.flaky_reader Examples.store_all
      Examples.three_page_site 10 (blank None) (Some "http://x/")
    = Some (st', o)
    /\ query_engine st' = true.
Proof.
  destruct (Indexing.index_website Examples.flaky_reader
              Examples.store_all Examples.three_page_site 10 (blank None)
              (Some "http://x/")) as [[st' o]|] eqn:E;
    [|vm_compute in E; discriminate E].
  exists st', o. split; [reflexivity|].
  exact (proj1 (index_website_leaves_service_ready
                  Examples.flaky_reader Examples.store_all
                  Examples.three_page_site 10 (blank None) st'
                  (Some "http://x/") o E)).
Defined.



End IndexingMore.

(** ** Queries: the shape of the answer *)

Module QueryingMore.
Import Indexing Querying SpecMore.
Local Open Scope list_scope.

Lemma length_append_s (a b : string) :
  String.length (a ++ b)%string = (String.length a + String.length b)%nat.
Proof. induction a as [|c a IH]; simpl; [reflexivity | by rewrite IH]. Qed.

Lemma length_substring_le (m : nat) (s : string) :
  (String.length (String.substring 0 m s) <= m)%nat.
Proof.
  revert s. induction m as [|m IH]; intros s.
  - destruct s; simpl; lia.
  - destruct s as [|c s]; simpl; [lia|]. specialize (IH s). lia.
Qed.

Lemma snippet_length (text : string) :
  (String.length (snippet text) <= 203)%nat.
Proof.
  unfold snippet. destruct (Nat.ltb_spec 200 (String.length text)).
  - rewrite length_append_s. pose proof (length_substring_le 200 text).
    simpl. lia.
  - lia.
Qed.

Lemma extract_cites nodes srcs :
  extract nodes = inr srcs ->
  (length srcs <= length nodes)%nat
  /\ forall s, s ∈ srcs -> exists n, n ∈ nodes /\ cites n s.
Proof.
  revert srcs. induction nodes as [|n nodes IH]; intros srcs; simpl.
  - intros H. injection H as <-. split; [simpl; lia|].
    intros s Hs. inversion Hs.
  - destruct (node_url n) as [u|] eqn:Eu.
    + destruct (extract nodes) as [e|l] eqn:El.
      { destruct (node_score n); discriminate. }
      destruct (IH l eq_refl) as [Hlen Hin].
      assert (Hcons : forall q,
                 node_score n = Score q
                 \/ (node_score n = NoScore /\ q = 0%Q) ->
                 @inr string _ (mkSource u q (snippet (node_text n)) :: l)
                 = inr srcs ->
                 (length srcs <= S (length nodes))%nat
                 /\ forall s, s ∈ srcs ->
                      exists n', n' ∈ n :: nodes /\ cites n' s).
      { intros q Hq H. injection H as <-. split; [simpl; lia|].
        intros s Hs. apply elem_of_cons in Hs.
        destruct Hs as [-> | Hs].
        - exists n. split; [by left|]. unfold cites. simpl. auto.
        - destruct (Hin s Hs) as (n' & Hn' & Hc).
          exists n'. split; [by right | exact Hc]. }
      destruct (node_score n) as [|e|q] eqn:Es; [|discriminate|].
      * apply Hcons. auto.
      * apply Hcons. auto.
    + intros H. destruct (IH srcs H) as [Hlen Hin]. split; [lia|].
      intros s Hs. destruct (Hin s Hs) as (n' & Hn' & Hc).
      exists n'. split; [by right | exact Hc].
Qed.

Lemma extract_bad_score nodes n u e :
  n ∈ nodes -> node_url n = Some u -> node_score n = BadScore e ->
  exists e', extract nodes = inl e'.
Proof.
  induction nodes as [|m nodes IH]; intros Hn Hu Hs.
  - inversion Hn.
  - apply elem_of_cons in Hn. simpl. destruct Hn as [<- | Hn].
    + rewrite Hu, Hs. eauto.
    + destruct (IH Hn Hu Hs) as [e' E]. rewrite E.
      destruct (node_url m); [|eauto].
      destruct (node_score m); eauto.
Qed.

Lemma unique_sub srcs seen :
  (length (unique srcs seen) <= length srcs)%nat
  /\ forall s, s ∈ unique srcs seen -> s ∈ srcs.
Proof.
  revert seen. induction srcs as [|x rest IH]; intros seen; simpl.
  - split; [lia | auto].
  - destruct (bool_decide (url x ∈ seen)).
    + destruct (IH seen) as [Hl Hi]. split; [lia|].
      intros s Hs. right. by apply Hi.
    + destruct (IH ({[url x]} ∪ seen)) as [Hl Hi]. split; [simpl; lia|].
      intros s Hs. apply elem_of_cons in Hs.
      destruct Hs as [-> | Hs]; [by left | right; by apply Hi].
Qed.

Section Engine.
Context (engine : option (list node) -> string -> reply).

Abbreviation query := (Querying.query engine).

(** X10.  [query] never raises, and its dictionary has one of two shapes:
    a failure has a message, an empty response, no sources and no
    question; a success has no message and carries the question asked. *)
Theorem query_answer_shape (st : service) (question : string) :
  exists r,
    query st question = Returned r
    /\ (success r = false ->
        response r = "" /\ sources r = [] /\ Querying.question r = None
        /\ exists msg, message r = Some msg)
    /\ (success r = true ->
        message r = None /\ Querying.question r = Some question).
Proof.
  unfold Querying.query.
  destruct (negb (query_engine st)).
  { eexists. split; [reflexivity|]. simpl.
    split; [eauto 10 | discriminate]. }
  destruct (engine (collection st) question) as [e|text nodes].
  { eexists. split; [reflexivity|]. simpl.
    split; [eauto 10 | discriminate]. }
  destruct (extract nodes) as [e|srcs].
  { eexists. split; [reflexivity|]. simpl.
    split; [eauto 10 | discriminate]. }
  eexists. split; [reflexivity|]. simpl. split; [discriminate | auto].
Qed.

(** X11.  In a successful answer the response is the engine's text, there
    are no more sources than matched chunks, every source is built from a
    matched chunk that has a source url (its url, its score or 0 when the
    chunk has none, the snippet of its text), and no snippet is longer
    than 203 characters. *)
Theorem query_sources_come_from_chunks
    (st : service) (question : string) (r : query_result) :
  query st question = Returned r -> success r = true ->
  exists text nodes,
    engine (collection st) question = Answer text nodes
    /\ response r = text
    /\ (length (sources r) <= length nodes)%nat
    /\ forall s, s ∈ sources r ->
         (String.length (text_snippet s) <= 203)%nat
         /\ exists n, n ∈ nodes /\ cites n s.
Proof.
  unfold Querying.query.
  destruct (negb (query_engine st));
    [intros H; injection H as <-; discriminate|].
  destruct (engine (collection st) question) as [e|text nodes];
    [intros H; injection H as <-; discriminate|].
  destruct (extract nodes) as [e|srcs] eqn:Ex;
    [intros H; injection H as <-; discriminate|].
  intros H _. injection H as <-. simpl.
  destruct (extract_cites nodes srcs Ex) as [Hlen Hin].
  destruct (unique_sub srcs ∅) as [Hul Hui].
  exists text, nodes. split; [reflexivity|]. split; [reflexivity|].
  split.
  - rewrite (Permutation_length (QueryingProofs.sort_desc_perm _)). lia.
  - intros s Hs. rewrite QueryingProofs.sort_desc_perm in Hs.
    destruct (Hin s (Hui s Hs)) as (n & Hn & Hc).
    split; [|eauto].
    destruct Hc as (_ & -> & _). apply snippet_length.
Qed.

(** X12.  One matched chunk that has a source url and a score that
    [float] rejects makes the whole query a reported failure: no sources
    are returned, also not those of the other chunks. *)
Theorem query_bad_score_fails
    (st : service) (question text : string)
    (nodes : list node_with_score) (n : node_with_score)
    (u e : string) :
  query_engine st = true ->
  engine (collection st) question = Answer text nodes ->
  n ∈ nodes -> node_url n = Some u -> node_score n = BadScore e ->
  exists e',
    query st question
    = Returned (failure ("Error processing query: " ++ e')%string).
Proof.
  intros Hq He Hn Hu Hs. unfold Querying.query. rewrite Hq, He. simpl.
  destruct (extract_bad_score nodes n u e Hn Hu Hs) as [e' ->]. eauto.
Qed.

End Engine.

Lemma query_sources_come_from_chunks_witness :
  exists r,
    Querying.query Examples.two_page_engine (init None) "When?"
    = Returned r
    /\ (length (sources r) <= 3)%nat.
Proof.
  destruct (Querying.query Examples.two_page_engine (init None) "When?")
    as [r|e] eqn:E; [|vm_compute in E; discriminate E].
  assert (Hs : success r = true).
  { pose proof E as E2. vm_compute in E2. injection E2 as <-.
    reflexivity. }
  exists r. split; [reflexivity|].
  destruct (query_sources_come_from_chunks Examples.two_page_engine
              (init None) "When?" r E Hs)
    as (text & nodes & He & _ & Hlen & _).
  vm_compute in He. injection He as _ <-. exact Hlen.
Defined.

Lemma query_bad_score_fails_witness :
  exists e',
    Querying.query Examples.unscored_engine (init None) "When?"
    = Returned (failure ("Error processing query: " ++ e')%string).
Proof.
  refine (query_bad_score_fails Examples.unscored_engine (init None)
            "When?" _ _
            (mkMatch (Some "http://x/b")
               (BadScore "float() argument must be a real number") "map")
            "http://x/b" _ eq_refl eq_refl _ eq_refl eq_refl).
  apply list_elem_of_further, list_elem_of_here.
Defined.

End QueryingMore.

(** ** The document listing *)

Module DocumentsProofs.
Import Documents.
Local Open Scope list_scope.

(** What the loop builds for the texts from index [i] on *)
Lemma build_spec result i texts docs :
  build result i texts = inr docs ->
  length docs = length texts
  /\ forall k d, docs !! k = Some d ->
       texts !! k = Some (full_text d)
       /\ text_snippet d = Querying.snippet (full_text d)
       /\ source_url d = default "unknown" (metadata d !! "source_url").
Proof.
  revert i docs. induction texts as [|t texts IH]; intros i docs; simpl.
  - intros H. injection H as <-. split; [reflexivity|].
    intros k d Hk. destruct k; discriminate Hk.
  - destruct (item (got_ids result) i _) as [doc_id|]; [|discriminate].
    destruct (item (got_metadatas result) i ∅) as [md|]; [|discriminate].
    destruct (build result (S i) texts) as [e|l] eqn:E; [discriminate|].
    intros H. injection H as <-.
    destruct (IH (S i) l E) as [Hlen Hk]. split; [simpl; lia|].
    intros [|k] d Hd; simpl in Hd.
    + injection Hd as <-. simpl. auto.
    + apply Hk. exact Hd.
Qed.



Section Chroma.
Context (not_found : string).
Context (chroma_get : list Indexing.node -> Z -> Z -> string + get_result).

Abbreviation get_documents := (Documents.get_documents not_found chroma_get).

(** X13.  [get_documents] always returns a dictionary.  A failure has a
    message, no documents and total count 0.  A success has the size of
    the whole collection as total count, whatever the page, and one
    document per text the store returned, in order, each with that text
    in full, its snippet of at most 203 characters, and the source url of
    its metadata or "unknown" when there is none. *)
Theorem get_documents_shape (st : Indexing.service) (limit offset : Z) :
  (success (get_documents st limit offset) = false ->
   documents (get_documents st limit offset) = []
   /\ total_count (get_documents st limit offset) = 0%Z
   /\ exists e, message (get_documents st limit offset)
                = Some ("Error getting documents: " ++ e)%string)
  /\ (success (get_documents st limit offset) = true ->
      exists stored result,
        Indexing.collection st = Some stored
        /\ chroma_get stored limit offset = inr result
        /\ message (get_documents st limit offset) = None
        /\ total_count (get_documents st limit offset)
           = Z.of_nat (length stored)
        /\ length (documents (get_documents st limit offset))
           = length (default [] (got_documents result))
        /\ forall k d,
             documents (get_documents st limit offset) !! k = Some d ->
             default [] (got_documents result) !! k = Some (full_text d)
             /\ text_snippet d = Querying.snippet (full_text d)
             /\ (String.length (text_snippet d) <= 203)%nat
             /\ source_url d
                = default "unknown" (metadata d !! "source_url")).
Proof.
  unfold Documents.get_documents.
  destruct (Indexing.collection st) as [stored|];
    [|split; [simpl; eauto | discriminate]].
  destruct (chroma_get stored limit offset) as [e|result] eqn:Eg;
    [split; [simpl; eauto | discriminate]|].
  destruct (got_documents result) as [[|t texts]|] eqn:Ed; cbn [truthy].
  - split; [discriminate|]. intros _. exists stored, result.
    rewrite Ed. simpl.
    split; [reflexivity|]. split; [exact Eg|].
    do 3 (split; [reflexivity|]). intros k d Hk.
    destruct k; discriminate Hk.
  - cbn [default from_option]. unfold Datatypes.id.
    destruct (build result 0 (t :: texts)) as [e|docs] eqn:Eb;
      [split; [simpl; eauto | discriminate]|].
    split; [discriminate|]. intros _. exists stored, result.
    destruct (build_spec result 0 (t :: texts) docs Eb) as [Hlen Hk].
    rewrite Ed. cbn [message total_count documents default from_option].
    unfold Datatypes.id.
    split; [reflexivity|]. split; [exact Eg|].
    do 2 (split; [reflexivity|]). split; [exact Hlen|].
    intros k d Hd. destruct (Hk k d Hd) as (H1 & H2 & H3).
    split; [exact H1|]. split; [exact H2|]. split; [|exact H3].
    rewrite H2. apply QueryingMore.snippet_length.
  - split; [discriminate|]. intros _. exists stored, result.
    rewrite Ed. simpl.
    split; [reflexivity|]. split; [exact Eg|].
    do 3 (split; [reflexivity|]). intros k d Hk.
    destruct k; discriminate Hk.
Qed.


End Chroma.


End DocumentsProofs.

(** ** The route handlers *)

Module ChatProofs.
Import PyStr ChatApi.
Local Open Scope list_scope.

Lemma find_skip {A : Type} (f : A -> bool) (l1 l2 : list A) :
  (forall x, x ∈ l1 -> f x = false) ->
  List.find f (l1 ++ l2) = List.find f l2.
Proof.
  induction l1 as [|x l1 IH]; intros H; simpl; [reflexivity|].
  rewrite (H x) by (by left). apply IH. intros y Hy. apply H. by right.
Qed.

Lemma nonempty_false (s : string) : nonempty s = false <-> s = ""%string.
Proof. destruct s; simpl; split; congruence. Qed.

Lemma last_user_content_found earlier msg later :
  msg !! "role"%string = Some "user"%string ->
  (forall m, m ∈ later -> m !! "role"%string <> Some "user"%string) ->
  last_user_content (earlier ++ msg :: later)
  = Some (default ""%string (msg !! "content"%string)).
Proof.
  intros Hrole Hlater. unfold last_user_content.
  rewrite rev_app_distr. simpl. rewrite <- app_assoc. simpl.
  rewrite find_skip.
  - simpl. rewrite bool_decide_eq_true_2 by exact Hrole. reflexivity.
  - intros m Hm. apply bool_decide_eq_false. apply Hlater.
    apply list_elem_of_In. apply in_rev. by apply list_elem_of_In.
Qed.

(** X15.  The question of a chat request: a non-empty [question] field is
    used as it is, whatever the messages; with an empty one the question
    is the content of the last message whose role is user (empty when it
    has no content), and earlier user messages are never used. *)
Theorem chat_question_is_last_user_message
    (request : QueryRequest)
    (earlier later : list (gmap string string))
    (msg : gmap string string) :
  request_question request = ""%string ->
  request_messages request = Some (earlier ++ msg :: later) ->
  msg !! "role"%string = Some "user"%string ->
  (forall m, m ∈ later -> m !! "role"%string <> Some "user"%string) ->
  derive_question request = default ""%string (msg !! "content"%string)
  /\ forall other,
       request_question other <> ""%string ->
       derive_question other = request_question other.
Proof.
  intros Hq Hm Hrole Hlater. split.
  - unfold derive_question. rewrite Hq, Hm.
    assert (Ht : Documents.truthy (Some (earlier ++ msg :: later)) = true)
      by (destruct earlier; reflexivity).
    rewrite Ht. cbn [nonempty negb andb default from_option].
    unfold Datatypes.id.
    by rewrite (last_user_content_found earlier msg later Hrole Hlater).
  - intros other Hne. unfold derive_question.
    destruct (request_question other); [congruence | reflexivity].
Qed.

Section Service.
Context (engine : option (list Indexing.node) -> string -> Querying.reply).
Context (http_str : Z -> string -> string).

Abbreviation chat := (ChatApi.chat engine http_str).


(** X17.  With a service and a question, the chat handler relays the
    query: a successful query gives a body with success true, the
    response and the sources of the query and the derived question; a
    reported failure of the query gives status 500, never a body. *)
Theorem chat_relays_query
    (st : Indexing.service) (request : QueryRequest) :
  derive_question request <> ""%string ->
  exists r,
    Querying.query engine st (derive_question request) = Returned r
    /\ (Querying.success r = true ->
        chat (Some st) request
        = Ok (mkQueryResponse true (Querying.response r)
                (Querying.sources r) (derive_question request) None))
    /\ (Querying.success r = false ->
        exists detail,
          chat (Some st) request = HTTPException 500 detail).
Proof.
  intros Hne. unfold ChatApi.chat, require_service.
  destruct (nonempty (derive_question request)) eqn:En;
    [|apply nonempty_false in En; congruence].
  cbn [negb].
  set (q := derive_question request).
  unfold Querying.query.
  destruct (negb (Indexing.query_engine st)).
  { eexists. split; [reflexivity|]. simpl.
    split; [discriminate | eauto]. }
  destruct (engine (Indexing.collection st) q) as [e|text nodes].
  { eexists. split; [reflexivity|]. simpl.
    split; [discriminate | eauto]. }
  destruct (Querying.extract nodes) as [e|srcs].
  { eexists. split; [reflexivity|]. simpl.
    split; [discriminate | eauto]. }
  eexists. split; [reflexivity|]. simpl. split; [auto | discriminate].
Qed.

End Service.

Lemma chat_question_is_last_user_message_witness :
  derive_question (mkQueryRequest "" None (Some Examples.conversation))
  = "When does it open?"%string.
Proof.
  refine (proj1 (chat_question_is_last_user_message
                   (mkQueryRequest "" None (Some Examples.conversation))
                   [ {[ "role"%string := "user"%string;
                        "content"%string := "Where is the harbor?"%string ]};
                     {[ "role"%string := "assistant"%string;
                        "content"%string := "On the coast."%string ]} ]
                   [ {[ "role"%string := "assistant"%string ]} ]
                   {[ "role"%string := "user"%string;
                      "content"%string := "When does it open?"%string ]}
                   eq_refl eq_refl eq_refl _)).
  intros m Hm. apply list_elem_of_singleton in Hm. subst m.
  vm_compute. discriminate.
Defined.

Lemma chat_relays_query_witness :
  exists r,
    Querying.query Examples.two_page_engine (Indexing.init None)
      "When does it open?" = Returned r
    /\ Querying.success r = true.
Proof.
  destruct (chat_relays_query Examples.two_page_engine
              (fun _ detail => detail) (Indexing.init None)
              (mkQueryRequest "" None (Some Examples.conversation)))
    as (r & Hr & _).
  - vm_compute. discriminate.
  - exists r. split; [exact Hr|].
    vm_compute in Hr. injection Hr as <-. reflexivity.
Defined.

End ChatProofs.

Module StatsProofs.
Import StatsApi.
Local Open Scope list_scope.

Section Chroma.
Context (not_found : string).

Abbreviation health_check := (StatsApi.health_check not_found).
Abbreviation get_stats := (StatsApi.get_stats not_found).

(** X18.  The statistics handler never answers with a body that reports
    failure: a body has success true, no message, and the size of the
    collection.  When the collection is missing the failure dictionary of
    [get_index_stats] has no collection name, so the handler answers 500
    with the text of the key error, while the health handler still
    answers healthy, with no documents and not ready. *)
Theorem get_stats_never_reports_failure (st : Indexing.service) :
  (forall body,
     get_stats (Some st) = Ok body ->
     success body = true /\ message body = None
     /\ collection_name body = "harbor_website"%string
     /\ exists stored,
          Indexing.collection st = Some stored
          /\ document_count body = Z.of_nat (length stored)
          /\ is_ready body = (0 <? Z.of_nat (length stored))%Z
          /\ health_check (Some st)
             = Ok (mkHealth "healthy" (is_ready body)
                     (document_count body)))
  /\ (Indexing.collection st = None ->
      get_stats (Some st) = HTTPException 500 "'collection_name'"
      /\ health_check (Some st) = Ok (mkHealth "healthy" false 0)).
Proof.
  unfold StatsApi.get_stats, StatsApi.health_check, require_service,
    Stats.get_index_stats.
  destruct (Indexing.collection st) as [stored|]; simpl.
  - split; [|discriminate]. intros body H. injection H as <-. simpl.
    repeat split; eauto.
  - split; [discriminate | auto].
Qed.

End Chroma.

End StatsProofs.

Module IndexApiProofs.
Import IndexApi.
Local Open Scope list_scope.

Section Env.
Context (load_data : string -> Indexing.load_result).
Context (ingest : string -> list string -> list string * bool).
Context (fetch : nat -> string -> Crawler.fetch_result).


(** X20.  With a service, the discover handler never answers with an
    error: when the crawl has ended the body has success true, no
    message, the urls without duplicates, all with the netloc of the
    requested base url, and their number as total count. *)
Theorem discover_handler_answer
    (fuel : nat) (st : Indexing.service) (base_url : string)
    (answer : http DiscoverResponse) :
  IndexApi.discover_urls fetch fuel (Some st) base_url = Some answer ->
  exists body,
    answer = Ok body
    /\ success body = true /\ message body = None
    /\ total_count body = Z.of_nat (length (urls body))
    /\ NoDup (urls body)
    /\ forall u, u ∈ urls body ->
         Spec.netloc_of u = Spec.netloc_of base_url.
Proof.
  unfold IndexApi.discover_urls, Crawler.discover_urls.
  destruct (Crawler.run fetch base_url Indexing.MAX_DEPTH fuel
              (Crawler.start base_url)) as [final|] eqn:E; [|discriminate].
  intros H. injection H as <-. eexists. split; [reflexivity|]. simpl.
  do 3 (split; [reflexivity|]). split; [apply NoDup_elements|].
  intros u Hu. apply elem_of_elements in Hu.
  destruct (CrawlerProofs.crawl_inv_run fetch base_url Indexing.MAX_DEPTH
              fuel _ final
              (CrawlerProofs.crawl_inv_start base_url Indexing.MAX_DEPTH)
              E) as [_ _ _ _ Hf].
  by apply Hf.
Qed.

End Env.


Lemma discover_handler_answer_witness :
  exists answer body,
    IndexApi.discover_urls Examples.mixed_site 20
      (Some (Indexing.init None)) "http://x/" = Some answer
    /\ answer = Ok body /\ NoDup (urls body).
Proof.
  destruct (IndexApi.discover_urls Examples.mixed_site 20
              (Some (Indexing.init None)) "http://x/")
    as [answer|] eqn:E; [|vm_compute in E; discriminate E].
  destruct (discover_handler_answer Examples.mixed_site 20
              (Indexing.init None) "http://x/" answer E)
    as (body & Ha & _ & _ & _ & Hn & _).
  exists answer, body. auto.
Defined.

End IndexApiProofs.

Module ServiceProofs.
Local Open Scope list_scope.

Section Engine.
Context (engine : option (list Indexing.node) -> string -> Querying.reply).

(** X21.  On a service as the constructor builds it, whatever the store
    held, [query] never answers that the system is not initialized: the
    question always goes to the engine, over the stored chunks (none when
    there was no collection), and a failure carries the engine's error. *)
Theorem query_on_constructed_service
    (stored : option (list Indexing.node)) (question : string) :
  exists r,
    Querying.query engine (Indexing.init stored) question = Returned r
    /\ Querying.message r
       <> Some "RAG system not initialized. Please index content first."%string
    /\ (Querying.success r = false ->
        exists e,
          Querying.message r
          = Some ("Error processing query: " ++ e)%string
          /\ (engine (Some (default [] stored)) question
              = Querying.EngineError e
              \/ exists text nodes,
                   engine (Some (default [] stored)) question
                   = Querying.Answer text nodes
                   /\ Querying.extract nodes = inl e)).
Proof.
  unfold Querying.query. cbn [Indexing.init Indexing.setup_vector_store
    Indexing.setup_query_engine Indexing.query_engine Indexing.collection
    Indexing.blank negb].
  destruct (engine (Some (default [] stored)) question)
    as [e|text nodes] eqn:Ee.
  { eexists. split; [reflexivity|]. simpl. split; [discriminate|].
    intros _. exists e. auto. }
  destruct (Querying.extract nodes) as [e|srcs] eqn:Ex.
  { eexists. split; [reflexivity|]. simpl. split; [discriminate|].
    intros _. exists e. split; [reflexivity|]. right. eauto. }
  eexists. split; [reflexivity|]. simpl.
  split; [discriminate | discriminate].
Qed.

End Engine.

Section Chroma.
Context (not_found : string).
Context (chroma_get
  : list Indexing.node -> Z -> Z -> string + Documents.get_result).

(** X22.  With a service, the documents handler always answers with a
    body: a failure of the listing is reported in the body, with success
    false, its message, no documents and total count 0, not as an error
    status. *)
Theorem documents_handler_always_answers
    (st : Indexing.service) (limit offset : Z) :
  exists body,
    DocumentsApi.get_documents not_found chroma_get (Some st) limit offset
    = Ok body
    /\ (DocumentsApi.success body = false ->
        DocumentsApi.documents body = []
        /\ DocumentsApi.total_count body = 0%Z
        /\ exists e,
             DocumentsApi.message body
             = Some ("Error getting documents: " ++ e)%string)
    /\ (Indexing.collection st = None ->
        DocumentsApi.success body = false).
Proof.
  unfold DocumentsApi.get_documents, require_service.
  eexists. split; [reflexivity|]. cbn [DocumentsApi.success
    DocumentsApi.documents DocumentsApi.total_count DocumentsApi.message].
  unfold Documents.get_documents.
  destruct (Indexing.collection st) as [stored|];
    [|split; [simpl; eauto | reflexivity]].
  split; [|discriminate].
  destruct (chroma_get stored limit offset) as [e|result];
    [simpl; eauto|].
  destruct (if Documents.truthy (Documents.got_documents result)
            then Documents.build result 0
                   (default [] (Documents.got_documents result))
            else inr []) as [e|docs]; [simpl; eauto | discriminate].
Qed.

End Chroma.

End ServiceProofs.
